(** * Agent_cv: job-offer scoring, CV analysis, notifications, history log
    and rate limiting.

    Shallow embedding of
    - [src/agents/job_offer_analyzer.py]  ([JobOfferAnalyzer])
    - [src/agents/cv_analyzer.py]         ([CVAnalyzer.analyze_cvs])
    - [src/agents/notification_agent.py]  ([NotificationAgent])
    - [app/utils/notification_logger.py]  ([log_notification], JSON path)
    - [src/utils/rate_limiter.py]         ([RateLimiter.__enter__])

    Python floats are modelled by exact rationals [Q]; [round(x, 4)] is
    the exact round-half-to-even of [x * 10^4].  Python dicts with a fixed
    set of keys are records whose [option] fields are "key absent / value
    falsy".  Strings are [String.string]; [str.lower] and [str.strip] act
    on the ASCII range. *)

From Stdlib Require Import QArith Qround Lqa ZArith Lia List String Ascii Bool
  Permutation Sorted.
Import ListNotations.

Open Scope Q_scope.
Open Scope string_scope.

(* ------------------------------------------------------------------ *)
(** ** Python numeric helpers *)

(** [round(y)] on the exact value: nearest integer, ties to even. *)
Definition round_half_even (y : Q) : Z :=
  let n := Qfloor y in
  match Qcompare (y - inject_Z n) (1 # 2) with
  | Lt => n
  | Gt => (n + 1)%Z
  | Eq => if Z.even n then n else (n + 1)%Z
  end.

(** [round(x, 4)]. *)
Definition round4 (x : Q) : Q := Qmake (round_half_even (x * 10000)) 10000.

(** Strict comparison [x < y] as a boolean. *)
Definition Qltb (x y : Q) : bool := negb (Qle_bool y x).

(** Python's [min(a, b)]: [b] if [b < a], else [a]. *)
Definition py_min (a b : Q) : Q := if Qltb b a then b else a.

(* ------------------------------------------------------------------ *)
(** ** Python string helpers *)

Definition ascii_lower (c : ascii) : ascii :=
  let n := nat_of_ascii c in
  if (65 <=? n)%nat && (n <=? 90)%nat then ascii_of_nat (n + 32) else c.

(** [str.lower] *)
Fixpoint str_lower (s : string) : string :=
  match s with
  | EmptyString => EmptyString
  | String c s' => String (ascii_lower c) (str_lower s')
  end.

(** Characters for which [str.isspace] holds in the ASCII range. *)
Definition is_space (c : ascii) : bool :=
  let n := nat_of_ascii c in
  ((9 <=? n)%nat && (n <=? 13)%nat) || ((28 <=? n)%nat && (n <=? 32)%nat).

Fixpoint drop_spaces (l : list ascii) : list ascii :=
  match l with
  | [] => []
  | c :: l' => if is_space c then drop_spaces l' else l
  end.

(** [str.strip] *)
Definition str_strip (s : string) : string :=
  string_of_list_ascii
    (rev (drop_spaces (rev (drop_spaces (list_ascii_of_string s))))).

(** [sub in s] for strings. *)
Definition str_contains (sub s : string) : bool :=
  match index 0 sub s with Some _ => true | None => false end.

(** [x in l] for a list of strings. *)
Definition str_mem (x : string) (l : list string) : bool :=
  existsb (String.eqb x) l.

(** [set(l)], as the list of its distinct elements; [len(set(l))] is the
    length of this list. *)
Definition str_set (l : list string) : list string := nodup string_dec l.

(* ------------------------------------------------------------------ *)
(** ** Data model *)

(** The [analysis] dict of a CV record.  [None] is "key absent" (or a
    falsy value where the code only reads it through [or]). *)
Record Analysis := mkAnalysis {
  an_skills : option (list string);
  an_experiences : option (list (string * string));
  an_years_experience : option Q;
  an_education : option string;
  an_education_level : option string;
  an_soft_skills : option (list string);
  an_certifications : option (list string)
}.

Definition empty_analysis : Analysis :=
  mkAnalysis None None None None None None None.

(** A CV record: [{name, email, path, skills?, analysis?, preferences?}]. *)
Record CV := mkCV {
  cv_name : string;
  cv_email : string;
  cv_path : option string;
  cv_top_skills : option (list string);
  cv_analysis : option Analysis;
  cv_pref_remote : option bool
}.

(** A job offer dict. *)
Record Offer := mkOffer {
  of_title : string;
  of_company : string;
  of_description : string;
  of_url : string;
  of_location : string;
  of_skills : option (list string)
}.

(** The dict returned by [_extract_requirements]. *)
Record Requirements := mkReq {
  rq_required_years : Q;
  rq_required_education : string;
  rq_seniority : string;
  rq_skill_hints : list string
}.

(* ------------------------------------------------------------------ *)
(** ** [JobOfferAnalyzer._score_offer] *)

(** [_WEIGHTS] *)
Definition w_skills : Q := 60 # 100.
Definition w_experience : Q := 20 # 100.
Definition w_education : Q := 15 # 100.
Definition w_location : Q := 5 # 100.

(** [_EDU_ORDER.get(s, 0)] *)
Definition edu_order (s : string) : Z :=
  if String.eqb s "none" then 0
  else if String.eqb s "bac" then 1
  else if String.eqb s "bachelor" then 2
  else if String.eqb s "master" then 3
  else if String.eqb s "phd" then 4
  else 0.

(** [analysis = cv.get('analysis', {})] *)
Definition cv_analysis_or_empty (cv : CV) : Analysis :=
  match cv_analysis cv with Some a => a | None => empty_analysis end.

(** [analysis.get('skills', cv.get('skills', fallback_cv_skills or []))] *)
Definition cv_skill_list (cv : CV) (fallback : list string) : list string :=
  match an_skills (cv_analysis_or_empty cv) with
  | Some l => l
  | None => match cv_top_skills cv with Some l => l | None => fallback end
  end.

(** [set(map(str.lower, ...))] of the candidate skills. *)
Definition cv_skill_set (cv : CV) (fallback : list string) : list string :=
  str_set (map str_lower (cv_skill_list cv fallback)).

(** [set(map(str.lower, offer.get('skills', []))) | set(skill_hints)] *)
Definition offer_skill_set (o : Offer) (r : Requirements) : list string :=
  str_set (app (map str_lower (match of_skills o with Some l => l | None => [] end))
               (rq_skill_hints r)).

Definition skills_component (cv : CV) (o : Offer) (r : Requirements)
    (fallback : list string) : Q :=
  let cvs := cv_skill_set cv fallback in
  let offs := offer_skill_set o r in
  let common := filter (fun s => str_mem s cvs) offs in
  match offs with
  | [] => match cvs with [] => 0 | _ => 1 end
  | _ => inject_Z (Z.of_nat (List.length common))
         / inject_Z (Z.max 1 (Z.of_nat (List.length offs)))
  end.

(** [float(analysis.get('years_experience') or 0)] *)
Definition cv_years (cv : CV) : Q :=
  match an_years_experience (cv_analysis_or_empty cv) with
  | Some y => y
  | None => 0
  end.

Definition experience_component (cv : CV) (r : Requirements) : Q :=
  let req := rq_required_years r in
  if Qle_bool req 0 then 1 else py_min 1 (cv_years cv / req).

(** [str(analysis.get('education_level') or 'none').lower()] *)
Definition cv_edu (cv : CV) : string :=
  str_lower (match an_education_level (cv_analysis_or_empty cv) with
             | Some s => if String.eqb s "" then "none" else s
             | None => "none"
             end).

Definition req_edu (r : Requirements) : string :=
  str_lower (if String.eqb (rq_required_education r) "" then "none"
             else rq_required_education r).

Definition education_component (cv : CV) (r : Requirements) : Q :=
  let cv_rank := edu_order (cv_edu cv) in
  let req_rank := edu_order (req_edu r) in
  if (req_rank <=? cv_rank)%Z then 1
  else inject_Z cv_rank / inject_Z (Z.max 1 req_rank).

Definition location_component (cv : CV) (o : Offer) : Q :=
  let location := str_lower (of_location o) in
  let prefers_remote := match cv_pref_remote cv with Some b => b | None => true end in
  if str_contains "remote" location || str_contains "télétravail" location
  then 1
  else if negb prefers_remote then 1 else 6 # 10.

Definition score_offer (cv : CV) (o : Offer) (r : Requirements)
    (fallback : list string) : Q :=
  round4 (w_skills * skills_component cv o r fallback
          + w_experience * experience_component cv r
          + w_education * education_component cv r
          + w_location * location_component cv o).

(** The best-CV loop of [_analyze_single_offer]. *)
Fixpoint pick_best (cvs : list CV) (o : Offer) (r : Requirements)
    (fallback : list string) (best_score : Q) (best_cv : option CV)
    : Q * option CV :=
  match cvs with
  | [] => (best_score, best_cv)
  | cv :: rest =>
      let s := score_offer cv o r fallback in
      if Qltb best_score s then pick_best rest o r fallback s (Some cv)
      else pick_best rest o r fallback best_score best_cv
  end.

(** [(ats_score, best_match_cv)] of [_analyze_single_offer]. *)
Definition ats_of (cv_data : list CV) (o : Offer) (r : Requirements)
    (fallback : list string) : option Q * option string :=
  match cv_data with
  | [] => (None, None)
  | _ =>
      let '(best, bcv) := pick_best cv_data o r fallback (-1) None in
      (Some (round4 best), option_map cv_name bcv)
  end.

(* ------------------------------------------------------------------ *)
(** ** [difflib.SequenceMatcher(None, a, b).ratio()]

    Without a junk function and with [autojunk] inactive (it only acts
    when [b] has at least 200 characters), [find_longest_match] returns
    the longest common block of [a[alo:ahi]] and [b[blo:bhi]]; among the
    longest it keeps the first one found scanning [i] upwards, then [j]
    upwards, by the end position [(i, j)] of the block.  The matched
    characters [M] are summed over the recursion on the two sides of
    each block, and [ratio = 2 M / (len a + len b)], or [1.0] when both
    are empty. *)

(** Length of the common suffix of [a[alo:i+1]] and [b[blo:j+1]]. *)
Fixpoint common_suffix (a b : list ascii) (alo blo i j fuel : nat) : nat :=
  match fuel with
  | O => O
  | S f =>
      if (alo <=? i)%nat && (blo <=? j)%nat
         && Ascii.eqb (nth i a "000"%char) (nth j b "000"%char)
      then S (match i, j with
              | S i', S j' => common_suffix a b alo blo i' j' f
              | _, _ => O
              end)
      else O
  end.

(** Scan of [find_longest_match]: returns [(besti, bestj, bestsize)]. *)
Definition find_longest_match (a b : list ascii) (alo ahi blo bhi : nat)
    : nat * nat * nat :=
  fold_left
    (fun acc i =>
       fold_left
         (fun '(bi, bj, bk) j =>
            let k := common_suffix a b alo blo i j (S i) in
            if (bk <? k)%nat then (S i - k, S j - k, k)%nat else (bi, bj, bk))
         (seq blo (bhi - blo)) acc)
    (seq alo (ahi - alo)) (alo, blo, O).

(** Number of matched characters of [get_matching_blocks]. *)
Fixpoint matched_chars (a b : list ascii) (alo ahi blo bhi fuel : nat) : nat :=
  match fuel with
  | O => O
  | S f =>
      let '(i, j, k) := find_longest_match a b alo ahi blo bhi in
      match k with
      | O => O
      | S _ =>
          k + matched_chars a b alo i blo j f
            + matched_chars a b (i + k) ahi (j + k) bhi f
      end
  end.

Definition seq_ratio (s t : string) : Q :=
  let a := list_ascii_of_string s in
  let b := list_ascii_of_string t in
  let la := List.length a in
  let lb := List.length b in
  match (la + lb)%nat with
  | O => 1
  | tot => inject_Z (Z.of_nat (2 * matched_chars a b 0 la 0 lb (S la)))
           / inject_Z (Z.of_nat tot)
  end.

(* ------------------------------------------------------------------ *)
(** ** [JobOfferAnalyzer._calculate_skill_match]

    [ratio] is the similarity [SequenceMatcher(None, x, y).ratio()];
    the development keeps it as a parameter and instantiates it with
    [seq_ratio] on concrete inputs. *)

Section SkillMatch.

Variable ratio : string -> string -> Q.

(** The fuzzy loop: [best_cv_skill] after scanning the candidate skills. *)
Fixpoint fuzzy_best (req : string) (cvs : list string) (best_sim : Q)
    (best : option string) : option string :=
  match cvs with
  | [] => best
  | c :: rest =>
      let s := ratio req c in
      if Qltb best_sim s && Qle_bool (7 # 10) s
      then fuzzy_best req rest s (Some c)
      else fuzzy_best req rest best_sim best
  end.

(** The loop over the required skills: [(matched, match_count)]. *)
Fixpoint match_loop (cvs : list string) (reqs : list string)
    : list string * nat :=
  match reqs with
  | [] => ([], O)
  | r :: rs =>
      let '(m, k) := match_loop cvs rs in
      if str_mem r cvs then (r :: m, S k)
      else match fuzzy_best r cvs 0 None with
           | Some c =>
               (* [if best_cv_skill:] -- the empty string is falsy *)
               if String.eqb c "" then (m, k)
               else ((r ++ " (similar: " ++ c ++ ")")%string :: m, S k)
           | None => (m, k)
           end
  end.

Definition calculate_skill_match (required cvs : list string)
    : list string * Q :=
  match required, cvs with
  | [], _ | _, [] => ([], 0)
  | _, _ =>
      let '(m, k) := match_loop cvs required in
      (m, inject_Z (Z.of_nat k) / inject_Z (Z.of_nat (List.length required)))
  end.

End SkillMatch.

(** [s.lower().strip()] *)
Definition normalize_skill (s : string) : string := str_strip (str_lower s).

(* ------------------------------------------------------------------ *)
(** ** [JobOfferAnalyzer._analyze_single_offer]

    [_extract_skills_from_text] returns [list(set)] (an order fixed by
    string hashing) and [_extract_requirements] depends on
    [utils.text_processing.normalize_text] and on the regex extractors;
    both are parameters of the section. *)

Record AnalyzedOffer := mkAO {
  ao_title : string;
  ao_company : string;
  ao_description : string;
  ao_url : string;
  ao_location : string;
  ao_required_skills : list string;
  ao_matched_skills : list string;
  ao_match_score : Q;
  ao_match_percentage : Z;
  ao_requirements : Requirements;
  ao_ats_score : option Q;
  ao_best_match_cv : option string
}.

Section AnalyzeOffer.

Variable ratio : string -> string -> Q.
Variable extract_skills_from_text : string -> list string.
Variable extract_requirements : Offer -> Requirements.

(** [required_skills] after derivation and normalisation. *)
Definition required_skills_of (o : Offer) : list string :=
  let given := match of_skills o with Some l => l | None => [] end in
  let rs :=
    match given with
    | [] =>
        match extract_skills_from_text (of_title o ++ " " ++ of_description o) with
        | [] =>
            let tl := str_lower (of_title o) in
            if str_contains "data analyst" tl || str_contains "data scientist" tl
               || str_contains "data engineer" tl
            then ["sql"; "python"; "data analysis"; "data visualization"]
            else []
        | ex => ex
        end
    | _ => given
    end in
  map normalize_skill rs.

(** [(matched_skills, match_score)]; [cv_skills] is [None] or a list. *)
Definition match_part (required : list string) (cv_skills : option (list string))
    : list string * Q :=
  match cv_skills with
  | Some ((_ :: _) as l) =>
      calculate_skill_match ratio required (map normalize_skill l)
  | _ => ([], 0)
  end.

Definition analyze_single_offer (o : Offer) (cv_skills : option (list string))
    (cv_data : list CV) : AnalyzedOffer :=
  let required := required_skills_of o in
  let '(matched, score) := match_part required cv_skills in
  let reqs := extract_requirements o in
  let fallback := match cv_skills with Some l => l | None => [] end in
  let '(ats, best) := ats_of cv_data o reqs fallback in
  mkAO (of_title o) (of_company o) (of_description o) (of_url o) (of_location o)
       required matched score (Qfloor (score * 100)) reqs ats best.

End AnalyzeOffer.

(* ------------------------------------------------------------------ *)
(** ** [NotificationAgent] *)

Fixpoint digits_rev (fuel n : nat) : list ascii :=
  match fuel with
  | O => []
  | S f =>
      ascii_of_nat (48 + n mod 10)
        :: (if (n / 10 =? 0)%nat then [] else digits_rev f (n / 10))
  end.

(** [str(n)] for an integer. *)
Definition z_to_string (z : Z) : string :=
  let n := Z.abs_nat z in
  let ds := string_of_list_ascii (rev (digits_rev (S n) n)) in
  if (z <? 0)%Z then "-" ++ ds else ds.

(** [str(n)] for a length. *)
Definition nat_to_string (n : nat) : string := z_to_string (Z.of_nat n).

(** [', '.join(l)] *)
Fixpoint join_comma (l : list string) : string :=
  match l with
  | [] => ""
  | [x] => x
  | x :: rest => x ++ ", " ++ join_comma rest
  end.

(** [int(x)] for a float: truncation towards zero. *)
Definition py_int (x : Q) : Z :=
  if Qle_bool 0 x then Qfloor x else (- Qfloor (- x))%Z.

Definition nl : string := String (ascii_of_nat 10) EmptyString.

(** [offer_key = f"{offer['title']}_{offer['company']}"] *)
Definition offer_key (o : AnalyzedOffer) : string :=
  ao_title o ++ "_" ++ ao_company o.

(** [_build_subject] *)
Definition build_subject (o : AnalyzedOffer) : string :=
  "Nouvelle offre " ++ z_to_string (py_int (ao_match_score o * 100)) ++ "% - "
  ++ ao_title o ++ " - " ++ ao_company o.

(** [missing_skills = [s for s in required_skills if s not in matched_skills]] *)
Definition missing_skills (o : AnalyzedOffer) : list string :=
  filter (fun s => negb (str_mem s (ao_matched_skills o))) (ao_required_skills o).

Definition congrats_line : string :=
  "🎯 Félicitations ! Vous possédez 100% des compétences requises pour ce poste !".

Definition missing_header : string := "📚 Compétences à développer pour un match à 100% (".

(** [_build_email_body].  [description_text] is the (possibly translated)
    description chosen by the optional completion call; the final
    [.strip()] is applied. *)
Definition build_email_body (o : AnalyzedOffer) (description_text : string)
    (motivation_letter : option string) : string :=
  let matched := ao_matched_skills o in
  let required := ao_required_skills o in
  let missing := missing_skills o in
  let body :=
    "Bonjour," ++ nl ++ nl
    ++ "Bonne nouvelle ! Nous avons trouvé une opportunité qui correspond à votre profil :"
    ++ nl ++ nl
    ++ "📋 Poste : " ++ ao_title o ++ nl
    ++ "🏢 Entreprise : " ++ ao_company o ++ nl
    ++ "📊 Taux de correspondance : " ++ z_to_string (py_int (ao_match_score o * 100)) ++ "%" in
  let body := if String.eqb (ao_url o) "" then body
              else body ++ nl ++ "🔗 Postuler : " ++ ao_url o in
  let body :=
    body ++ nl ++ nl ++ "Description :" ++ nl ++ description_text ++ nl ++ nl
    ++ "Compétences requises :" ++ nl
    ++ (match required with [] => "N/A" | _ => join_comma required end) ++ nl ++ nl
    ++ "✅ Vos compétences correspondantes (" ++ nat_to_string (List.length matched)
    ++ "/" ++ nat_to_string (List.length required) ++ ") :" ++ nl
    ++ (match matched with [] => "Aucune correspondance" | _ => join_comma matched end) in
  let body :=
    match missing with
    | [] => body ++ nl ++ nl ++ congrats_line
    | _ =>
        body ++ nl ++ nl ++ missing_header ++ nat_to_string (List.length missing)
        ++ ") :" ++ nl ++ join_comma missing ++ nl ++ nl
        ++ "💡 Conseil : Développer ces compétences augmenterait vos chances d'obtenir ce poste."
    end in
  let body :=
    body ++ nl ++ nl
    ++ "        Ce poste semble bien correspondre à votre profil. Veuillez le consulter et envisager de postuler si vous êtes intéressé."
    ++ nl ++ "        " in
  let body :=
    match motivation_letter with
    | Some l => if String.eqb l "" then body
                else body ++ nl ++ nl ++ "---" ++ nl ++ "LETTRE DE MOTIVATION PERSONNALISÉE"
                     ++ nl ++ "---" ++ nl ++ nl ++ l
    | None => body
    end in
  str_strip (body ++ nl ++ nl ++ "Cordialement," ++ nl ++ "L'équipe Agent_CV" ++ nl ++ nl
             ++ "---" ++ nl ++ "Ceci est une notification automatique.").

(** [_is_valid_email]: [re.match(r'^[a-zA-Z0-9._%+-]+@[a-zA-Z0-9.-]+\.[a-zA-Z]{2,}$', e)].
    The local part and the domain part exclude ['@'], so the match splits
    at the first ['@']; the last label follows the last ['.'] (letters
    contain no ['.']).  [$] also matches before a final newline. *)
Definition is_alpha (c : ascii) : bool :=
  let n := nat_of_ascii c in
  ((65 <=? n)%nat && (n <=? 90)%nat) || ((97 <=? n)%nat && (n <=? 122)%nat).

Definition is_digit (c : ascii) : bool :=
  let n := nat_of_ascii c in (48 <=? n)%nat && (n <=? 57)%nat.

Definition char_in (c : ascii) (set : string) : bool :=
  existsb (Ascii.eqb c) (list_ascii_of_string set).

Definition local_char (c : ascii) : bool :=
  is_alpha c || is_digit c || char_in c "._%+-".

Definition domain_char (c : ascii) : bool :=
  is_alpha c || is_digit c || char_in c ".-".

(** Split at the first occurrence of [c]. *)
Fixpoint split_first (c : ascii) (l : list ascii) : option (list ascii * list ascii) :=
  match l with
  | [] => None
  | x :: rest =>
      if Ascii.eqb x c then Some ([], rest)
      else match split_first c rest with
           | Some (p, q) => Some (x :: p, q)
           | None => None
           end
  end.

Definition email_full_match (l : list ascii) : bool :=
  match split_first "@"%char l with
  | Some (lp, rest) =>
      negb (List.length lp =? 0)%nat && forallb local_char lp
      && forallb domain_char rest
      && match split_first "."%char (rev rest) with
         | Some (tld_rev, dom_rev) =>
             (2 <=? List.length tld_rev)%nat && forallb is_alpha tld_rev
             && negb (List.length dom_rev =? 0)%nat
         | None => false
         end
  | None => false
  end.

Definition is_valid_email (e : string) : bool :=
  let l := list_ascii_of_string e in
  email_full_match l
  || (match rev l with
      | c :: rl => Ascii.eqb c (ascii_of_nat 10) && email_full_match (rev rl)
      | [] => false
      end).

(** The agent's state.  [sent_notifications] is the in-memory list;
    [outbox] is the log of e-mails the sender accepted, each tagged with
    the offer key it was sent for. *)
Record NState := mkNState {
  sent_notifications : list string;
  outbox : list (string * (string * string * string))
}.

Section Notify.

(** [email_sender.send_email(to, subject, body)] returns normally
    ([true]) or raises ([false]). *)
Variable sender_ok : string -> string -> string -> bool.
(** [os.environ.get('NOTIFICATION_EMAIL')] *)
Variable env_notification_email : option string.
(** Description text after the optional translation call. *)
Variable description_text : AnalyzedOffer -> string.
Variable min_match_score : Q.

(** Recipient: the parameter if truthy, else the environment variable. *)
Definition resolve_recipient (recipient : option string) : option string :=
  match recipient with
  | Some r => if String.eqb r "" then
                match env_notification_email with
                | Some e => if String.eqb e "" then None else Some e
                | None => None
                end
              else Some r
  | None =>
      match env_notification_email with
      | Some e => if String.eqb e "" then None else Some e
      | None => None
      end
  end.

Fixpoint notify_loop (recipient : string) (force : bool)
    (letters : string -> option string) (offers : list AnalyzedOffer)
    (st : NState) (sent_count : nat) : nat * NState :=
  match offers with
  | [] => (sent_count, st)
  | o :: rest =>
      let k := offer_key o in
      if str_mem k (sent_notifications st) && negb force
      then notify_loop recipient force letters rest st sent_count
      else
        let subject := build_subject o in
        let body := build_email_body o (description_text o) (letters k) in
        if sender_ok recipient subject body
        then notify_loop recipient force letters rest
               (mkNState (app (sent_notifications st) [k])
                         (app (outbox st) [(k, (recipient, subject, body))]))
               (S sent_count)
        else notify_loop recipient force letters rest st sent_count
  end.

Definition matched_offers (analyzed : list AnalyzedOffer) : list AnalyzedOffer :=
  filter (fun o => Qle_bool min_match_score (ao_match_score o)) analyzed.

Definition send_notifications (analyzed : list AnalyzedOffer) (st : NState)
    (recipient : option string) (force : bool)
    (letters : string -> option string) : nat * NState :=
  match analyzed with
  | [] => (O, st)
  | _ =>
      match resolve_recipient recipient with
      | None => (O, st)
      | Some r =>
          if negb (is_valid_email r) then (O, st)
          else match matched_offers analyzed with
               | [] => (O, st)
               | ms => notify_loop r force letters ms st O
               end
      end
  end.

End Notify.

(* ------------------------------------------------------------------ *)
(** ** [CVAnalyzer.analyze_cvs]

    PDF extraction, tokenisation, skill identification, NER and the
    regex extractors are parameters; the loop and its skip conditions
    are those of the source. *)

(** [extract_years_experience]: the four branches, taking the regex
    matches as inputs (range [(a, b)], explicit [d], since-year [y],
    bare [d]).  [round((a + b) / 2, 1)] is exact on halves. *)
Definition extract_years_experience_of (range_m : option (nat * nat))
    (explicit_m : option nat) (since_m : option Z) (current_year : Z)
    (bare_m : option nat) : option Q :=
  match range_m with
  | Some (a, b) => Some (Qmake (Z.of_nat (a + b)) 2)
  | None =>
      let explicit :=
        match explicit_m with
        | Some d => if (d <=? 60)%nat then Some (inject_Z (Z.of_nat d)) else None
        | None => None
        end in
      match explicit with
      | Some v => Some v
      | None =>
          let since :=
            match since_m with
            | Some y => if (0 <=? current_year - y)%Z
                        then Some (inject_Z (current_year - y)) else None
            | None => None
            end in
          match since with
          | Some v => Some v
          | None =>
              match bare_m with
              | Some d => if (d <=? 60)%nat then Some (inject_Z (Z.of_nat d)) else None
              | None => None
              end
          end
      end
  end.

Section AnalyzeCVs.

(** [safe_extract_pdf_text(path, fallback_text="")] *)
Variable extract_pdf_text : string -> string.
(** [identify_skills(Counter(filtered tokens))] *)
Variable identify_skills : string -> list string.
(** [analyze_experiences(text)] *)
Variable analyze_experiences : string -> list (string * string).
Variable extract_years_experience : string -> option Q.
Variable extract_education_level : string -> string.
Variable extract_soft_skills : string -> list string.
Variable extract_certifications : string -> list string.

(** [isinstance(cv, dict) and 'analysis' in cv and cv['analysis'].get('skills')] *)
Definition already_analyzed (cv : CV) : bool :=
  match cv_analysis cv with
  | Some a => match an_skills a with Some (_ :: _) => true | _ => false end
  | None => false
  end.

Definition analyze_cv (cv : CV) : CV :=
  if already_analyzed cv then cv
  else match cv_path cv with
       | None => cv
       | Some p =>
           if String.eqb p "" then cv
           else
             let text := extract_pdf_text p in
             if String.eqb text "" then cv
             else
               let a := mkAnalysis (Some (identify_skills text))
                                   (Some (analyze_experiences text))
                                   (extract_years_experience text)
                                   (Some (extract_education_level text))
                                   None
                                   (Some (extract_soft_skills text))
                                   (Some (extract_certifications text)) in
               mkCV (cv_name cv) (cv_email cv) (cv_path cv) (cv_top_skills cv)
                    (Some a) (cv_pref_remote cv)
       end.

(** Each record is mutated in place; the list after the loop. *)
Definition analyze_cvs (cvs : list CV) : list CV := map analyze_cv cvs.

End AnalyzeCVs.

(* ------------------------------------------------------------------ *)
(** ** [log_notification], JSON path *)

Record NotifRecord := mkNotif {
  nr_timestamp : string;
  nr_recipient_email : string;
  nr_recipient_name : string;
  nr_job_count : Z;
  nr_status : string
}.

(** [history[-50:]] *)
Definition last_n {A} (n : nat) (l : list A) : list A :=
  skipn (List.length l - n) l.

(** The file: [None] when absent or unreadable (read back as [[]]). *)
Definition load_history (file : option (list NotifRecord)) : list NotifRecord :=
  match file with Some h => h | None => [] end.

Definition log_notification_json (file : option (list NotifRecord))
    (r : NotifRecord) : option (list NotifRecord) :=
  Some (last_n 50 (app (load_history file) [r])).

Definition log_all (file : option (list NotifRecord)) (rs : list NotifRecord)
    : option (list NotifRecord) :=
  fold_left log_notification_json rs file.

(* ------------------------------------------------------------------ *)
(** ** [RateLimiter.__enter__]

    [timestamps] is the deque; [now] is [time.time()] on entry and
    [now_after] is [time.time()] read after [time.sleep(wait_time)].
    The result is [None] when [self.timestamps[0]] raises, otherwise the
    sleep performed (if any) and the new deque. *)

Fixpoint prune (now tw : Q) (ts : list Q) : list Q :=
  match ts with
  | [] => []
  | t :: rest => if Qltb t (now - tw) then prune now tw rest else ts
  end.

Definition rl_enter (max_requests : nat) (tw : Q) (ts : list Q) (now now_after : Q)
    : option (option Q * list Q) :=
  let ts1 := prune now tw ts in
  if (max_requests <=? List.length ts1)%nat then
    match ts1 with
    | [] => None
    | oldest :: _ =>
        let wait := oldest + tw - now in
        if Qltb 0 wait
        then Some (Some wait, app (prune now_after tw ts1) [now_after])
        else Some (None, app ts1 [now])
    end
  else Some (None, app ts1 [now]).

(* ------------------------------------------------------------------ *)
(** ** [sorted(l, key=k, reverse=True)] and [l[:n]]

    [before x y] holds when the key of [x] is strictly greater than the
    key of [y].  Python's sort is stable, also with [reverse=True]:
    elements of equal key keep their order.  Inserting each element, in
    order, after every element whose key is not smaller gives that order. *)

Fixpoint insert_desc {A} (before : A -> A -> bool) (x : A) (l : list A) : list A :=
  match l with
  | [] => [x]
  | y :: l' => if before x y then x :: l else y :: insert_desc before x l'
  end.

Definition sort_desc {A} (before : A -> A -> bool) (l : list A) : list A :=
  fold_left (fun acc x => insert_desc before x acc) l [].

(** [l[:n]], also for a negative [n]. *)
Definition py_take {A} (n : Z) (l : list A) : list A :=
  if (0 <=? n)%Z then firstn (Z.to_nat n) l
  else firstn (Z.to_nat (Z.of_nat (List.length l) + n)) l.

(* ------------------------------------------------------------------ *)
(** ** [JobOfferAnalyzer.get_best_matches] *)

(** [key=lambda x: x.get('match_score', 0)] *)
Definition by_match_score (x y : AnalyzedOffer) : bool :=
  Qltb (ao_match_score y) (ao_match_score x).

Definition get_best_matches (analyzed_offers : list AnalyzedOffer) (top_n : Z)
    : list AnalyzedOffer :=
  py_take top_n (sort_desc by_match_score analyzed_offers).

(* ------------------------------------------------------------------ *)
(** ** [JobOfferAnalyzer._extract_skills_from_text] *)

Definition skill_patterns : list (string * list string) :=
  [ ("python", ["python"]);
    ("r", ["\br\b"; "\blanguage r\b"]);
    ("java", ["java"]);
    ("javascript", ["javascript"; "js"]);
    ("sql", ["sql"; "mysql"; "postgresql"; "t-sql"; "pl/sql"]);
    ("scala", ["scala"]);
    ("pandas", ["pandas"]);
    ("numpy", ["numpy"]);
    ("scikit-learn", ["scikit-learn"; "sklearn"]);
    ("tensorflow", ["tensorflow"]);
    ("pytorch", ["pytorch"]);
    ("spark", ["spark"; "pyspark"]);
    ("hadoop", ["hadoop"]);
    ("tableau", ["tableau"]);
    ("power bi", ["power bi"; "powerbi"]);
    ("excel", ["excel"]);
    ("machine learning", ["machine learning"; "ml"; "apprentissage automatique";
                          "apprentissage machine"]);
    ("deep learning", ["deep learning"; "apprentissage profond"]);
    ("data visualization", ["data visualization"; "visualisation"; "dataviz"; "data viz"]);
    ("statistical analysis", ["statistical analysis"; "statistiques"; "analyse statistique"]);
    ("data mining", ["data mining"; "exploration de données"; "fouille de données"]);
    ("data analysis", ["data analysis"; "analyse de données"; "analyse des données"]);
    ("aws", ["aws"; "amazon web services"]);
    ("azure", ["azure"; "microsoft azure"]);
    ("gcp", ["gcp"; "google cloud"]);
    ("docker", ["docker"]);
    ("git", ["git"; "github"; "gitlab"]);
    ("api", ["api"; "rest api"; "restful"]);
    ("etl", ["etl"]) ].

(** The elements of [list(detected)]: the canonical names one of whose
    patterns is a substring ([pattern in text_lower]) of [text.lower()].
    The list follows [skill_patterns]; the source returns the same
    elements in the iteration order of a [set]. *)
Definition extract_skills_from_text (text : string) : list string :=
  let text_lower := str_lower text in
  map fst (filter (fun sp => existsb (fun p => str_contains p text_lower) (snd sp))
                  skill_patterns).

(* ------------------------------------------------------------------ *)
(** ** [CVAnalyzer.identify_skills] and [CVAnalyzer.get_all_skills]

    [word_counts] is the [Counter] as the list of its items in insertion
    order (distinct words).  The iteration order of the [tech_skills] set
    depends on string hashing: it is a parameter [tech_order], a
    permutation of [tech_skills]. *)

Definition tech_skills : list string :=
  [ "python"; "java"; "javascript"; "typescript"; "c++"; "c#"; "php"; "ruby"; "go";
    "rust"; "kotlin"; "swift"; "scala"; "r";
    "sql"; "mysql"; "postgresql"; "mongodb"; "oracle"; "sqlite"; "redis"; "cassandra";
    "dynamodb"; "mariadb";
    "power bi"; "powerbi"; "tableau"; "looker"; "qlik"; "excel"; "dax"; "power query";
    "machine learning"; "deep learning"; "tensorflow"; "pytorch"; "scikit-learn"; "keras";
    "nlp"; "computer vision";
    "pandas"; "numpy"; "scipy"; "matplotlib"; "seaborn"; "plotly"; "jupyter";
    "spark"; "hadoop"; "airflow"; "kafka"; "etl"; "data pipeline"; "databricks";
    "aws"; "azure"; "gcp"; "docker"; "kubernetes"; "terraform";
    "react"; "angular"; "vue"; "node.js"; "django"; "flask"; "fastapi"; "spring";
    "agile"; "scrum"; "devops"; "ci/cd"; "git"; "jira";
    "api"; "rest"; "graphql"; "microservices"; "data modeling"; "data visualization";
    "business intelligence"; "data analysis"; "statistical analysis"; "data mining";
    "reporting"; "dashboard"; "kpi"; "analytics" ].

Definition default_skills : list string := ["python"; "sql"; "data analysis"].

Definition generic_words : list string :=
  ["data"; "pour"; "avec"; "dans"; "cette"; "vous"; "votre"; "notre"].

(** [str.isupper] / [str.islower] on a character of the ASCII range. *)
Definition is_upper (c : ascii) : bool :=
  let n := nat_of_ascii c in (65 <=? n)%nat && (n <=? 90)%nat.

Definition is_lower (c : ascii) : bool :=
  let n := nat_of_ascii c in (97 <=? n)%nat && (n <=? 122)%nat.

(** [str.isupper]: a cased character, and no lower-case one. *)
Definition str_isupper (s : string) : bool :=
  let l := list_ascii_of_string s in
  existsb is_upper l && negb (existsb is_lower l).

(** [s.endswith(suf)] *)
Definition str_endswith (suf s : string) : bool :=
  let n := String.length s in
  let m := String.length suf in
  (m <=? n)%nat && String.eqb (substring (n - m) m s) suf.

(** [' '.join(l)] *)
Fixpoint join_space (l : list string) : string :=
  match l with
  | [] => ""
  | [x] => x
  | x :: rest => x ++ " " ++ join_space rest
  end.

(** [Counter.most_common(n)]: the first [n] items by count, descending,
    ties in insertion order. *)
Definition most_common (n : nat) (word_counts : list (string * nat)) : list (string * nat) :=
  firstn n (sort_desc (fun x y => (snd y <? snd x)%nat) word_counts).

(** One step of the [most_common(50)] loop; [None] once [word[0]] raised
    [IndexError]. *)
Definition identify_step (acc : option (list string)) (wc : string * nat)
    : option (list string) :=
  match acc with
  | None => None
  | Some found =>
      let '(word, count) := wc in
      let word_lower := str_lower word in
      if ((2 <? String.length word)%nat && negb (str_mem word_lower generic_words)
          && existsb is_upper (list_ascii_of_string word))
         || str_endswith "bi" word_lower || str_endswith "sql" word_lower
         || str_endswith "py" word_lower
         || (3 <=? count)%nat
      then
        if negb (str_mem word_lower (map str_lower found)) then
          if (String.length word <=? 10)%nat then
            if str_isupper word then Some (app found [word_lower])
            else match word with
                 | EmptyString => None
                 | String c _ => if is_upper c then Some (app found [word_lower])
                                 else Some found
                 end
          else Some found
        else Some found
      else Some found
  end.

Definition identify_skills_of (tech_order : list string) (word_counts : list (string * nat))
    : option (list string) :=
  let keys := map fst word_counts in
  let text_lower := str_lower (join_space keys) in
  let found :=
    filter (fun skill => str_contains skill text_lower
                         || existsb (fun word => str_contains skill word) keys)
           tech_order in
  match fold_left identify_step (most_common 50 word_counts) (Some found) with
  | None => None
  | Some found => Some (match found with [] => default_skills | _ => firstn 25 found end)
  end.

(** [analysis['skills']] of a record, [[]] when it has none. *)
Definition analysis_skills (cv : CV) : list string :=
  match cv_analysis cv with
  | Some a => match an_skills a with Some l => l | None => [] end
  | None => []
  end.

(** The elements of [list(all_skills)] (a [set] in the source). *)
Definition get_all_skills (cvs : list CV) : list string :=
  nodup string_dec (List.concat (map analysis_skills cvs)).

(* ------------------------------------------------------------------ *)
(** ** [get_notification_history] and [get_notification_stats], JSON path *)

(** [key=lambda x: x.get('timestamp', '')], [reverse=True] *)
Definition by_timestamp (x y : NotifRecord) : bool :=
  String.ltb (nr_timestamp y) (nr_timestamp x).

(** [if user_email: history = [n for n in history if ...]] *)
Definition filter_email (user_email : option string) (h : list NotifRecord)
    : list NotifRecord :=
  match user_email with
  | Some e => if String.eqb e "" then h
              else filter (fun n => String.eqb (nr_recipient_email n) e) h
  | None => h
  end.

Definition get_notification_history_json (file : option (list NotifRecord))
    (user_email : option string) (limit : Z) : list NotifRecord :=
  match file with
  | None => []
  | Some history => py_take limit (filter_email user_email (sort_desc by_timestamp history))
  end.

Record NotifStats := mkStats {
  st_total_sent : nat;
  st_total_jobs : Z;
  st_last_notification : option string
}.

Definition no_stats : NotifStats := mkStats O 0%Z None.

Definition get_notification_stats_json (file : option (list NotifRecord))
    (user_email : option string) : NotifStats :=
  match file with
  | None => no_stats
  | Some history =>
      match filter_email user_email history with
      | [] => no_stats
      | h =>
          let h := sort_desc by_timestamp h in
          mkStats (List.length h) (fold_right Z.add 0%Z (map nr_job_count h))
                  (option_map nr_timestamp (hd_error h))
      end
  end.

(* ------------------------------------------------------------------ *)
(** ** The collaborator loop of [run_once] ([scripts/run_once_notify.py])

    One [NotificationAgent] serves every collaborator; before each call
    the first matching preference, if it has a numeric [min_match_score],
    overwrites the agent's threshold.  [rs_trace] records, for each call,
    the recipient, the threshold in force and the number sent; [rs_log]
    the [log_notification] calls. *)

Record Pref := mkPref {
  pf_email : option string;
  pf_name : option string;
  pf_min_match_score : option Q
}.

Record RunState := mkRun {
  rs_min_match_score : Q;
  rs_agent : NState;
  rs_total_sent : nat;
  rs_trace : list (string * Q * nat);
  rs_log : list (string * string * nat)
}.

Section NotifyCollaborators.

Variable sender_ok : string -> string -> string -> bool.
Variable env_notification_email : option string.
Variable description_text : AnalyzedOffer -> string.
Variable user_prefs : list Pref.
Variable analyzed : list AnalyzedOffer.
Variable generated_letters : string -> option string.

(** [p.get('email') == recipient_email or p.get('name') == recipient_name] *)
Definition pref_matches (email name : string) (p : Pref) : bool :=
  match pf_email p with Some e => String.eqb e email | None => false end
  || match pf_name p with Some n => String.eqb n name | None => false end.

Definition apply_pref (min : Q) (email name : string) : Q :=
  match find (pref_matches email name) user_prefs with
  | Some p => match pf_min_match_score p with Some m => m / 100 | None => min end
  | None => min
  end.

Fixpoint notify_collaborators (cvs : list CV) (rs : RunState) : RunState :=
  match cvs with
  | [] => rs
  | cv :: rest =>
      if String.eqb (cv_email cv) "" then notify_collaborators rest rs
      else
        let email := cv_email cv in
        let name := cv_name cv in
        let min := apply_pref (rs_min_match_score rs) email name in
        let '(sent, st) :=
          send_notifications sender_ok env_notification_email description_text min
            analyzed (rs_agent rs) (Some email) true generated_letters in
        notify_collaborators rest
          (mkRun min st (rs_total_sent rs + sent) (app (rs_trace rs) [(email, min, sent)])
                 (if (0 <? sent)%nat then app (rs_log rs) [(email, name, sent)]
                  else rs_log rs))
  end.

End NotifyCollaborators.

(* ------------------------------------------------------------------ *)
(** ** The new-offer filter of the scheduler ([scripts/scheduler.py]) *)

(** [offer.get('url', '') or offer.get('title', '')] *)
Definition offer_id (o : Offer) : string :=
  if String.eqb (of_url o) "" then of_title o else of_url o.

(** [(new_offers, seen_ids)] after the loop; the set [seen_ids] as a list. *)
Fixpoint select_new_offers (offers : list Offer) (seen : list string)
    : list Offer * list string :=
  match offers with
  | [] => ([], seen)
  | o :: rest =>
      let id := offer_id o in
      if negb (String.eqb id "") && negb (str_mem id seen)
      then let '(nw, seen') := select_new_offers rest (app seen [id]) in (o :: nw, seen')
      else select_new_offers rest seen
  end.

(* ------------------------------------------------------------------ *)
(** ** [filter_offers_by_title_and_location] ([utils/job_fetcher.py]) *)

(** [match_title], with [titles_lower] computed by the caller. *)
Definition match_title (titles_lower : list string) (offer_title : string) : bool :=
  if String.eqb offer_title "" then false
  else let t := str_lower offer_title in existsb (fun key => str_contains key t) titles_lower.

(** [match_location], with [loc_lower] computed by the caller. *)
Definition match_location (loc_lower : string) (offer_loc desc : string) : bool :=
  if String.eqb loc_lower "" then true
  else if negb (String.eqb offer_loc "") && str_contains loc_lower (str_lower offer_loc)
  then true
  else if negb (String.eqb desc "") && str_contains loc_lower (str_lower desc)
  then true
  else false.

Definition filter_offers_by_title_and_location (offers : list Offer) (titles : list string)
    (location_keyword : string) : list Offer :=
  let titles_lower := map str_lower titles in
  let loc_lower := if String.eqb location_keyword "" then "" else str_lower location_keyword in
  filter (fun o => match_title titles_lower (of_title o)
                   && match_location loc_lower (of_location o) (of_description o)) offers.

(* ------------------------------------------------------------------ *)
(* ------------------------------------------------------------------ *)
(** ** [MotivationLetterGenerator] *)

(** [_generate_template].  [now] is [datetime.now().strftime(...)]; the
    unused [description] is left out. *)
Definition generate_template (candidate_name : string) (o : AnalyzedOffer)
    (matched_skills : list string) (now : string) : string :=
  let title := ao_title o in
  let company := ao_company o in
  let match_score := py_int (ao_match_score o * 100) in
  let skills_str := match matched_skills with
                    | [] => "compétences pertinentes"
                    | _ => join_comma matched_skills
                    end in
  "Madame, Monsieur," ++ nl ++ nl
  ++ "    Je souhaite vous faire part de mon vif intérêt pour le poste de "
  ++ title ++ " au sein de " ++ company
  ++ ". Fort(e) d'une expérience significative et d'un ensemble de compétences adaptées, je suis convaincu(e) de pouvoir contribuer efficacement à vos projets."
  ++ nl ++ nl
  ++ "    Au cours de mon parcours, j'ai développé des compétences en "
  ++ skills_str
  ++ " qui correspondent étroitement aux attentes liées à ce poste. J'ai su mettre en œuvre ces compétences dans des contextes professionnels exigeants, en obtenant des résultats mesurables et en m'adaptant rapidement aux besoins des équipes."
  ++ nl ++ nl
  ++ "    Ce qui motive particulièrement ma candidature, c'est la perspective de rejoindre "
  ++ company
  ++ " et de participer à ses enjeux en apportant mon savoir-faire et mon engagement. Je suis enthousiaste à l'idée de relever les défis proposés par ce poste et d'évoluer au sein d'une organisation reconnue pour son dynamisme."
  ++ nl ++ nl
  ++ "    Je me tiens à votre disposition pour un entretien afin d'échanger plus en détail sur ma candidature et la valeur ajoutée que je peux apporter."
  ++ nl ++ nl
  ++ "    Je vous remercie par avance de l'attention portée à ma candidature."
  ++ nl ++ nl
  ++ "    Veuillez agréer, Madame, Monsieur, l'expression de mes salutations distinguées."
  ++ nl ++ nl
  ++ "    " ++ candidate_name ++ nl ++ nl
  ++ "    ---" ++ nl
  ++ "    Généré le : " ++ now ++ nl
  ++ "    Score de correspondance : " ++ z_to_string match_score ++ "%".

(** [_generate_with_gpt]: [chat_completion]'s answer, given by [gpt]
    ([None] when it raises), else the template. *)
Definition generate_with_gpt (gpt : string -> AnalyzedOffer -> option string)
    (candidate_name : string) (o : AnalyzedOffer) (matched_skills : list string)
    (now : string) : string :=
  match gpt candidate_name o with
  | Some l => l
  | None => generate_template candidate_name o matched_skills now
  end.

(** [cv_data = self.cv_analyzer.cv_data[0] if ... else {}];
    [candidate_name = cv_data.get('name', 'Candidate')] *)
Definition first_candidate_name (cv_data : list CV) : string :=
  match cv_data with
  | cv :: _ => cv_name cv
  | [] => "Candidate"
  end.

Section Letters.

Variable openai_available : bool.
Variable gpt : string -> AnalyzedOffer -> option string.
Variable now : string.

Definition letter_for (candidate_name : string) (o : AnalyzedOffer) : string :=
  if openai_available
  then generate_with_gpt gpt candidate_name o (ao_matched_skills o) now
  else generate_template candidate_name o (ao_matched_skills o) now.

(** [generated_letters], a dict, as an association list in insertion
    order; [offer_key in self.generated_letters] *)
Definition letter_key_in (k : string) (letters : list (string * string)) : bool :=
  existsb (fun p => String.eqb (fst p) k) letters.

(** The [for offer in matched_offers] loop of [generate_letters]. *)
Fixpoint generate_loop (candidate_name : string) (offers : list AnalyzedOffer)
    (letters : list (string * string)) : list (string * string) :=
  match offers with
  | [] => letters
  | o :: rest =>
      let k := offer_key o in
      if letter_key_in k letters then generate_loop candidate_name rest letters
      else generate_loop candidate_name rest (app letters [(k, letter_for candidate_name o)])
  end.

(** [generate_letters(min_match_score)]: the generator's
    [generated_letters] afterwards (the early [return {}] leave it as it
    was). *)
Definition generate_letters (cv_data : list CV) (min_match_score : Q)
    (analyzed : list AnalyzedOffer) (letters : list (string * string))
    : list (string * string) :=
  match analyzed with
  | [] => letters
  | _ =>
      match filter (fun o => Qle_bool min_match_score (ao_match_score o)) analyzed with
      | [] => letters
      | ms => generate_loop (first_candidate_name cv_data) ms letters
      end
  end.

End Letters.

(** [generated_letters.get(offer_key)] on the copy returned by
    [get_generated_letters]. *)
Definition letter_lookup (letters : list (string * string)) (k : string) : option string :=
  option_map snd (find (fun p => String.eqb (fst p) k) letters).

(** ** Repeated [RateLimiter.__enter__] at one instant *)

(** [n] acquisitions, each entering at [now]; [after] is the clock read
    after a sleep.  The sleeps performed and the final deque. *)
Fixpoint rl_burst (n : nat) (max_requests : nat) (tw : Q) (ts : list Q) (now after : Q)
    : option (list (option Q) * list Q) :=
  match n with
  | O => Some ([], ts)
  | S n' =>
      match rl_enter max_requests tw ts now after with
      | None => None
      | Some (w, ts') =>
          match rl_burst n' max_requests tw ts' now after with
          | None => None
          | Some (ws, ts'') => Some (w :: ws, ts'')
          end
      end
  end.

(* ------------------------------------------------------------------ *)
(** ** [NotificationAgent.clear_notification_history] *)

(** [self.sent_notifications.clear()]; the e-mails already accepted stay sent. *)
Definition clear_notification_history (st : NState) : NState :=
  mkNState [] (outbox st).

(* ------------------------------------------------------------------ *)
(** ** Sample inputs *)

Definition analysis_alice : Analysis :=
  mkAnalysis (Some ["Python"; "SQL"; "Tableau"]) (Some [("Acme", "ORG")])
             (Some 3) (Some "master") None (Some ["communication"]) (Some []).

Definition cv_alice : CV :=
  mkCV "Alice" "alice@example.com" (Some "data/cv/alice.pdf") None
       (Some analysis_alice) None.

Definition cv_bob : CV :=
  mkCV "Bob" "bob@example.com" (Some "data/cv/bob.pdf") (Some ["excel"]) None (Some false).

Definition offer_da : Offer :=
  mkOffer "Data Analyst" "Acme" "SQL, Python and Excel; 5 years; licence"
          "https://jobs.example.com/1" "Paris" (Some ["python"; "excel"]).

Definition reqs_da : Requirements := mkReq 5 "bachelor" "mid" ["sql"].

(** Required skills found by the rule of the basic match: an exact
    match among the (normalised) candidate skills, or some candidate
    skill of similarity ratio at least [0.7]. *)
Definition skill_found (ratio : string -> string -> Q) (cvs : list string)
    (r : string) : bool :=
  str_mem r cvs || existsb (fun c => Qle_bool (7 # 10) (ratio r c)) cvs.

(** A CV record before analysis, and the analysis the agent stores for it
    when the extractors report a master's degree and 6 years. *)
Definition cv_carol_raw : CV :=
  mkCV "Carol" "carol@example.com" (Some "data/cv/carol.pdf") None None None.

Definition cv_carol : CV :=
  analyze_cv (fun _ => "Carol - Master Data Science - 6 ans d'experience - Python SQL")
             (fun _ => ["python"; "sql"]) (fun _ => [("Carol", "PERSON")])
             (fun _ => Some 6) (fun _ => "master") (fun _ => []) (fun _ => [])
             cv_carol_raw.

(** An offer whose only skill is matched through similarity. *)
Definition offer_pandas : Offer :=
  mkOffer "Data Analyst" "Acme" "Analyse avec Pandas" "https://jobs.example.com/2"
          "Lyon" (Some ["Pandas"]).

Definition ao_pandas : AnalyzedOffer :=
  analyze_single_offer seq_ratio (fun _ => []) (fun _ => reqs_da)
                       offer_pandas (Some ["panda"]) [].

(** Number of accepted e-mails sent for offer key [k]. *)
Definition count_key (k : string) (out : list (string * (string * string * string))) : nat :=
  List.length (filter (fun e => String.eqb (fst e) k) out).

(** Number of offers of key [k] in a list. *)
Definition key_count (k : string) (offers : list AnalyzedOffer) : nat :=
  List.length (filter (fun o => String.eqb (offer_key o) k) offers).

(** A matched offer and the recipient used by the sample calls. *)
Definition ao_alice : AnalyzedOffer :=
  analyze_single_offer seq_ratio (fun _ => []) (fun _ => reqs_da)
                       offer_da (Some ["Python"; "Excel"; "SQL"]) [cv_alice].

(** A preference file with one entry, for Alice. *)
Definition prefs_alice : list Pref := [mkPref (Some "alice@example.com") None (Some 80)].

(** A CV record carrying a negative [years_experience] and no skills. *)
Definition cv_dan : CV :=
  mkCV "Dan" "dan@example.com" None None
       (Some (mkAnalysis (Some []) None (Some (-10)) None None None None)) None.

(* ================================================================== *)
(** ** Lemmas on rounding and on the score components *)

Lemma Qltb_true (x y : Q) : Qltb x y = true -> x < y.
Proof.
  unfold Qltb. intro H. apply negb_true_iff in H.
  apply Qnot_le_lt. intro Hle. apply Qle_bool_iff in Hle. congruence.
Qed.

Lemma Qltb_false (x y : Q) : Qltb x y = false -> y <= x.
Proof.
  unfold Qltb. intro H. apply negb_false_iff in H. now apply Qle_bool_iff.
Qed.

Lemma round_half_even_le (m : Z) (y : Q) :
  y <= inject_Z m -> (round_half_even y <= m)%Z.
Proof.
  intro Hy. unfold round_half_even.
  pose proof (Qfloor_le y) as Hf.
  assert (Hnm : (Qfloor y <= m)%Z) by (rewrite Zle_Qle; lra).
  destruct (Z.eq_dec (Qfloor y) m) as [E|E].
  - rewrite E in *.
    destruct (Qcompare_spec (y - inject_Z m) (1 # 2)) as [H|H|H].
    + exfalso; lra.
    + lia.
    + exfalso; lra.
  - destruct (Qcompare_spec (y - inject_Z (Qfloor y)) (1 # 2));
      [destruct (Z.even (Qfloor y))|..]; lia.
Qed.

Lemma round_half_even_ge (m : Z) (y : Q) :
  inject_Z m <= y -> (m <= round_half_even y)%Z.
Proof.
  intro Hy. unfold round_half_even.
  pose proof (Qlt_floor y) as Hf.
  assert (Hnm : (m < Qfloor y + 1)%Z) by (rewrite Zlt_Qlt; lra).
  destruct (Qcompare_spec (y - inject_Z (Qfloor y)) (1 # 2));
    [destruct (Z.even (Qfloor y))|..]; lia.
Qed.

Lemma round4_le (m : Z) (x : Q) :
  x * 10000 <= inject_Z m -> round4 x <= Qmake m 10000.
Proof.
  intro H. unfold round4.
  pose proof (round_half_even_le _ _ H) as Hr.
  unfold Qle; cbn [Qnum Qden]. lia.
Qed.

Lemma round4_ge (m : Z) (x : Q) :
  inject_Z m <= x * 10000 -> Qmake m 10000 <= round4 x.
Proof.
  intro H. unfold round4.
  pose proof (round_half_even_ge _ _ H) as Hr.
  unfold Qle; cbn [Qnum Qden]. lia.
Qed.

Lemma round4_unit (x : Q) : 0 <= x <= 1 -> 0 <= round4 x <= 1.
Proof.
  intros [H0 H1]. split.
  - apply (Qle_trans _ (Qmake 0 10000)); [unfold Qle; simpl; lia|].
    apply round4_ge. change (inject_Z 0) with 0. lra.
  - apply (Qle_trans _ (Qmake 10000 10000)); [|unfold Qle; simpl; lia].
    apply round4_le. change (inject_Z 10000) with (10000 # 1).
    lra.
Qed.

(** [round(round(x, 4), 4) == round(x, 4)]. *)
Lemma round4_idem (x : Q) : round4 (round4 x) = round4 x.
Proof.
  unfold round4 at 1. set (n := round_half_even (x * 10000)).
  unfold round4. fold n.
  assert (E : round_half_even (Qmake n 10000 * 10000) = n).
  { apply Z.le_antisymm.
    - apply round_half_even_le. unfold Qle; simpl. lia.
    - apply round_half_even_ge. unfold Qle; simpl. lia. }
  now rewrite E.
Qed.

Lemma ratio_unit (a b : Z) :
  (0 <= a <= b)%Z -> 0 <= inject_Z a / inject_Z (Z.max 1 b) <= 1.
Proof.
  intros [Ha Hab].
  assert (Hd : 0 < inject_Z (Z.max 1 b)).
  { change 0 with (inject_Z 0). rewrite <- Zlt_Qlt. lia. }
  split.
  - apply Qle_shift_div_l; [exact Hd|].
    rewrite Qmult_0_l. change 0 with (inject_Z 0). rewrite <- Zle_Qle. lia.
  - apply Qle_shift_div_r; [exact Hd|].
    rewrite Qmult_1_l. rewrite <- Zle_Qle. lia.
Qed.

Lemma filter_length_le' {A} (f : A -> bool) (l : list A) :
  (List.length (filter f l) <= List.length l)%nat.
Proof.
  induction l as [|a l IH]; simpl; [lia|]. destruct (f a); simpl; lia.
Qed.

Lemma skills_component_unit cv o r fb :
  0 <= skills_component cv o r fb <= 1.
Proof.
  unfold skills_component.
  destruct (offer_skill_set o r) as [|s l] eqn:E.
  - destruct (cv_skill_set cv fb); lra.
  - apply ratio_unit.
    pose proof (filter_length_le' (fun s0 => str_mem s0 (cv_skill_set cv fb)) (s :: l)).
    lia.
Qed.

Lemma experience_component_unit cv r :
  0 <= cv_years cv -> 0 <= experience_component cv r <= 1.
Proof.
  intro Hy. unfold experience_component, py_min.
  destruct (Qle_bool (rq_required_years r) 0) eqn:Hr; [lra|].
  assert (Hpos : 0 < rq_required_years r).
  { apply Qnot_le_lt. intro H. apply Qle_bool_iff in H. congruence. }
  assert (Hq : 0 <= cv_years cv / rq_required_years r).
  { apply Qle_shift_div_l; [exact Hpos|]. lra. }
  destruct (Qltb (cv_years cv / rq_required_years r) 1) eqn:Hl.
  - apply Qltb_true in Hl. lra.
  - lra.
Qed.

Lemma edu_order_range s : (0 <= edu_order s <= 4)%Z.
Proof.
  unfold edu_order.
  repeat match goal with |- context [if ?b then _ else _] => destruct b end; lia.
Qed.

Lemma education_component_unit cv r :
  0 <= education_component cv r <= 1.
Proof.
  unfold education_component.
  pose proof (edu_order_range (cv_edu cv)).
  pose proof (edu_order_range (req_edu r)).
  destruct (edu_order (req_edu r) <=? edu_order (cv_edu cv))%Z eqn:E; [lra|].
  apply Z.leb_gt in E. apply ratio_unit. lia.
Qed.

Lemma location_component_cases cv o :
  location_component cv o = 1 \/ location_component cv o = 6 # 10.
Proof.
  unfold location_component.
  destruct (_ || _); [now left|].
  destruct (negb _); [now left|now right].
Qed.

Lemma location_component_unit cv o :
  6 # 10 <= location_component cv o <= 1.
Proof.
  destruct (location_component_cases cv o) as [E|E]; rewrite E; lra.
Qed.

Lemma pick_best_spec cvs o r fb b bc :
  b <= fst (pick_best cvs o r fb b bc) /\
  Forall (fun cv => score_offer cv o r fb <= fst (pick_best cvs o r fb b bc)) cvs.
Proof.
  revert b bc. induction cvs as [|cv rest IH]; intros b bc; simpl.
  - split; [lra | constructor].
  - destruct (Qltb b (score_offer cv o r fb)) eqn:Hlt.
    + apply Qltb_true in Hlt.
      destruct (IH (score_offer cv o r fb) (Some cv)) as [H1 H2].
      split; [lra | constructor; assumption].
    + apply Qltb_false in Hlt.
      destruct (IH b bc) as [H1 H2].
      split; [assumption | constructor; [lra | assumption]].
Qed.

Lemma score_offer_unit cv o r fb :
  0 <= cv_years cv -> 0 <= score_offer cv o r fb <= 1.
Proof.
  intro Hy. unfold score_offer. apply round4_unit.
  pose proof (skills_component_unit cv o r fb).
  pose proof (experience_component_unit cv r Hy).
  pose proof (education_component_unit cv r).
  pose proof (location_component_unit cv o).
  unfold w_skills, w_experience, w_education, w_location. lra.
Qed.

Lemma score_offer_floor cv o r fb :
  0 <= cv_years cv -> Qmake 300 10000 <= score_offer cv o r fb.
Proof.
  intro Hy. unfold score_offer. apply round4_ge.
  pose proof (skills_component_unit cv o r fb).
  pose proof (experience_component_unit cv r Hy).
  pose proof (education_component_unit cv r).
  pose proof (location_component_unit cv o).
  change (inject_Z 300) with (300 # 1).
  unfold w_skills, w_experience, w_education, w_location. lra.
Qed.

Lemma Qltb_intro (x y : Q) : x < y -> Qltb x y = true.
Proof.
  intro H. unfold Qltb. apply negb_true_iff.
  destruct (Qle_bool y x) eqn:E; [|reflexivity].
  apply Qle_bool_iff in E. exfalso. lra.
Qed.

Lemma ats_of_single cv o r fb :
  0 <= cv_years cv ->
  fst (ats_of [cv] o r fb) = Some (score_offer cv o r fb).
Proof.
  intro Hy. pose proof (score_offer_unit cv o r fb Hy) as [H0 H1].
  unfold ats_of; simpl.
  rewrite (Qltb_intro (-1) (score_offer cv o r fb)) by lra.
  simpl. unfold score_offer. now rewrite round4_idem.
Qed.

Lemma analyze_ats ratio ex exr o cvsk cv_data :
  ao_ats_score (analyze_single_offer ratio ex exr o cvsk cv_data)
  = fst (ats_of cv_data o (exr o) (match cvsk with Some l => l | None => [] end)).
Proof.
  unfold analyze_single_offer.
  destruct (match_part ratio _ _) as [m s].
  destruct (ats_of _ _ _ _) as [a b]. reflexivity.
Qed.

(* ================================================================== *)
(** ** Claims *)

(** C1: for a CV whose [analysis.years_experience] is absent or
    non-negative, and any offer, the ATS score of the analyzed offer is
    [round(0.60*skills + 0.20*experience + 0.15*education + 0.05*location, 4)]
    with the four components of [_score_offer], and it lies in [[0, 1]]. *)
Theorem ats_score_weighted_sum (ratio : string -> string -> Q)
    (ex : string -> list string) (exr : Offer -> Requirements)
    (o : Offer) (cvsk : option (list string)) (cv : CV)
    (Hyears : 0 <= cv_years cv) :
  let r := exr o in
  let fb := match cvsk with Some l => l | None => [] end in
  let total := (60 # 100) * skills_component cv o r fb
             + (20 # 100) * experience_component cv r
             + (15 # 100) * education_component cv r
             + (5 # 100) * location_component cv o in
  ao_ats_score (analyze_single_offer ratio ex exr o cvsk [cv]) = Some (round4 total)
  /\ 0 <= round4 total <= 1.
Proof.
  intros r fb total.
  rewrite analyze_ats, ats_of_single by exact Hyears.
  split; [reflexivity|].
  apply (score_offer_unit cv o r fb Hyears).
Qed.

Lemma ats_score_weighted_sum_witness :
  0 <= cv_years cv_alice /\
  ao_ats_score (analyze_single_offer seq_ratio (fun _ => []) (fun _ => reqs_da)
                  offer_da None [cv_alice])
  = Some (round4 ((60 # 100) * skills_component cv_alice offer_da reqs_da []
                  + (20 # 100) * experience_component cv_alice reqs_da
                  + (15 # 100) * education_component cv_alice reqs_da
                  + (5 # 100) * location_component cv_alice offer_da))
  /\ 0 <= round4 ((60 # 100) * skills_component cv_alice offer_da reqs_da []
                  + (20 # 100) * experience_component cv_alice reqs_da
                  + (15 # 100) * education_component cv_alice reqs_da
                  + (5 # 100) * location_component cv_alice offer_da) <= 1.
Proof.
  split.
  - vm_compute. discriminate.
  - apply (ats_score_weighted_sum seq_ratio (fun _ => []) (fun _ => reqs_da)
             offer_da None cv_alice).
    vm_compute. discriminate.
Defined.

(** The years the CV analysis agent stores are absent or non-negative:
    every branch of [extract_years_experience] yields a value [>= 0]. *)
Lemma extract_years_experience_nonneg rm em sm cy bm y :
  extract_years_experience_of rm em sm cy bm = Some y -> 0 <= y.
Proof.
  unfold extract_years_experience_of.
  destruct rm as [[a b]|].
  - intro E; inversion E; subst. unfold Qle; simpl. lia.
  - destruct em as [d|]; [destruct (d <=? 60)%nat|];
      try (intro E; inversion E; subst; unfold Qle; simpl; lia);
      (destruct sm as [z|]; [destruct (0 <=? cy - z)%Z eqn:Hz|];
       [intro E; inversion E; subst; apply Z.leb_le in Hz;
        unfold Qle; simpl; lia|..]);
      (destruct bm as [d'|]; [destruct (d' <=? 60)%nat|];
       intro E; inversion E; subst; unfold Qle; simpl; lia).
Qed.

(** C10: for every offer, the location component of every CV is [1.0]
    or [0.6]; and when at least one CV record is supplied (each with
    absent or non-negative years, as the CV analysis agent stores them,
    see [extract_years_experience_nonneg]), the analyzed offer carries an
    [ats_score] of at least [0.03], hence never [0.0]. *)
Theorem ats_score_floor (ratio : string -> string -> Q)
    (ex : string -> list string) (exr : Offer -> Requirements)
    (o : Offer) (cvsk : option (list string)) (cv_data : list CV)
    (Hne : cv_data <> [])
    (Hyears : Forall (fun cv => 0 <= cv_years cv) cv_data) :
  (forall cv, location_component cv o = 1 \/ location_component cv o = 6 # 10)
  /\ exists a, ao_ats_score (analyze_single_offer ratio ex exr o cvsk cv_data) = Some a
               /\ 3 # 100 <= a /\ ~ a == 0.
Proof.
  split; [intro cv; apply location_component_cases|].
  rewrite analyze_ats.
  set (fb := match cvsk with Some l => l | None => [] end).
  destruct cv_data as [|cv0 rest]; [congruence|].
  inversion Hyears as [|? ? Hy0 _]; subst.
  unfold ats_of.
  destruct (pick_best (cv0 :: rest) o (exr o) fb (-1) None) as [best bcv] eqn:Hpb.
  pose proof (pick_best_spec (cv0 :: rest) o (exr o) fb (-1) None) as [_ Hall].
  rewrite Hpb in Hall. simpl in Hall.
  inversion Hall as [|? ? Hb0 _]; subst.
  pose proof (score_offer_floor cv0 o (exr o) fb Hy0) as Hf.
  exists (round4 best). split; [reflexivity|].
  assert (Hr : Qmake 300 10000 <= round4 best).
  { apply round4_ge. change (inject_Z 300) with (300 # 1). lra. }
  split; [lra|]. intro E. lra.
Qed.

Lemma ats_score_floor_witness :
  [cv_alice; cv_bob] <> [] /\
  Forall (fun cv => 0 <= cv_years cv) [cv_alice; cv_bob] /\
  ((forall cv, location_component cv offer_da = 1 \/ location_component cv offer_da = 6 # 10)
   /\ exists a, ao_ats_score (analyze_single_offer seq_ratio (fun _ => []) (fun _ => reqs_da)
                               offer_da (Some ["sql"]) [cv_alice; cv_bob]) = Some a
                /\ 3 # 100 <= a /\ ~ a == 0).
Proof.
  assert (Hf : Forall (fun cv => 0 <= cv_years cv) [cv_alice; cv_bob]).
  { repeat constructor; vm_compute; discriminate. }
  split; [discriminate|]. split; [exact Hf|].
  apply (ats_score_floor seq_ratio (fun _ => []) (fun _ => reqs_da) offer_da
           (Some ["sql"]) [cv_alice; cv_bob]); [discriminate | exact Hf].
Defined.

(** C2 (evaluation at the failing input): the CV analysis agent stores the
    level under [analysis['education']], while [_score_offer] reads
    [analysis['education_level']]; a master's degree against a bachelor
    requirement scores [0], not [1]. *)
Theorem education_component_reads_education_level :
  an_education (cv_analysis_or_empty cv_carol) = Some "master"
  /\ (edu_order (req_edu reqs_da) <= edu_order "master")%Z
  /\ education_component cv_carol reqs_da == 0.
Proof. split; [|split]; vm_compute; first [reflexivity | discriminate]. Qed.

Lemma fuzzy_best_some_stays ratio r cvs bs x :
  exists y, fuzzy_best ratio r cvs bs (Some x) = Some y.
Proof.
  revert bs x. induction cvs as [|c rest IH]; intros bs x; simpl.
  - eauto.
  - destruct (_ && _); apply IH.
Qed.

Lemma fuzzy_best_none ratio r cvs bs :
  existsb (fun c => Qle_bool (7 # 10) (ratio r c)) cvs = false ->
  fuzzy_best ratio r cvs bs None = None.
Proof.
  revert bs. induction cvs as [|c rest IH]; intros bs H; simpl in *; [reflexivity|].
  apply orb_false_iff in H as [H1 H2]. rewrite H1, andb_false_r. now apply IH.
Qed.

Lemma fuzzy_best_found ratio r cvs :
  existsb (fun c => Qle_bool (7 # 10) (ratio r c)) cvs = true ->
  exists y, fuzzy_best ratio r cvs 0 None = Some y.
Proof.
  induction cvs as [|c rest IH]; intro H; simpl in *; [discriminate|].
  destruct (Qle_bool (7 # 10) (ratio r c)) eqn:E.
  - apply Qle_bool_iff in E.
    rewrite (Qltb_intro 0 (ratio r c)) by lra. simpl. apply fuzzy_best_some_stays.
  - rewrite andb_false_r. now apply IH.
Qed.

Lemma fuzzy_best_sound ratio r cvs bs b y :
  fuzzy_best ratio r cvs bs b = Some y ->
  b = Some y \/ (In y cvs /\ 7 # 10 <= ratio r y).
Proof.
  revert bs b. induction cvs as [|c rest IH]; intros bs b H; simpl in *; [now left|].
  destruct (Qltb bs (ratio r c) && Qle_bool (7 # 10) (ratio r c)) eqn:E.
  - apply andb_true_iff in E as [_ E]. apply Qle_bool_iff in E.
    destruct (IH _ _ H) as [Hs|[Hin Hr]].
    + inversion Hs; subst. right; split; [now left|exact E].
    + right; split; [now right|exact Hr].
  - destruct (IH _ _ H) as [Hs|[Hin Hr]]; [now left|]. right; split; [now right|exact Hr].
Qed.

Lemma str_mem_In x l : str_mem x l = true <-> In x l.
Proof.
  unfold str_mem. rewrite existsb_exists. split.
  - intros [y [Hin E]]. apply String.eqb_eq in E. now subst.
  - intro H. exists x. split; [exact H|]. apply String.eqb_refl.
Qed.

Lemma match_loop_count ratio
    (Hratio : forall a, a <> "" -> ratio a "" == 0) cvs reqs :
  snd (match_loop ratio cvs reqs) = List.length (filter (skill_found ratio cvs) reqs).
Proof.
  induction reqs as [|r rs IH]; simpl; [reflexivity|].
  destruct (match_loop ratio cvs rs) as [m k] eqn:Hml. simpl in IH.
  change (skill_found ratio cvs r) with
    (str_mem r cvs || existsb (fun c => Qle_bool (7 # 10) (ratio r c)) cvs).
  destruct (str_mem r cvs) eqn:Hmem; simpl; [now rewrite IH|].
  destruct (existsb (fun c => Qle_bool (7 # 10) (ratio r c)) cvs) eqn:Hex.
  - destruct (fuzzy_best_found ratio r cvs Hex) as [y Hy]. rewrite Hy.
    destruct (String.eqb y "") eqn:Hye; simpl; [|now rewrite IH].
    exfalso. apply String.eqb_eq in Hye; subst y.
    destruct (fuzzy_best_sound ratio r cvs 0 None "" Hy) as [Hs|[Hin Hr]];
      [discriminate|].
    destruct (string_dec r "") as [Er|Er].
    + subst r. apply str_mem_In in Hin. congruence.
    + specialize (Hratio r Er). lra.
  - rewrite fuzzy_best_none by exact Hex. simpl. exact IH.
Qed.

Lemma analyze_match_fields ratio ex exr o cvsk cv_data :
  ao_required_skills (analyze_single_offer ratio ex exr o cvsk cv_data) = required_skills_of ex o
  /\ ao_match_score (analyze_single_offer ratio ex exr o cvsk cv_data)
     = snd (match_part ratio (required_skills_of ex o) cvsk).
Proof.
  unfold analyze_single_offer.
  destruct (match_part ratio _ _) as [m s] eqn:E.
  destruct (ats_of _ _ _ _) as [a b]. split; reflexivity.
Qed.

(** C3: for every offer and candidate-skill list, with [ratio] any
    similarity whose value against the empty string is [0] for a
    non-empty first argument (as [SequenceMatcher.ratio] is), the basic
    match score lies in [[0, 1]] and is [0] when the (normalised)
    required-skill list or the candidate list is empty, and otherwise
    [k / N], [N] the number of required skills and [k] the number of them
    found exactly or through a ratio [>= 0.7]. *)
Theorem basic_match_score (ratio : string -> string -> Q)
    (Hratio : forall a, a <> "" -> ratio a "" == 0)
    (ex : string -> list string) (exr : Offer -> Requirements)
    (o : Offer) (cvsk : option (list string)) (cv_data : list CV) :
  let ao := analyze_single_offer ratio ex exr o cvsk cv_data in
  let req := ao_required_skills ao in
  let cvs := match cvsk with Some l => map normalize_skill l | None => [] end in
  ao_match_score ao =
    match req, cvs with
    | [], _ | _, [] => 0
    | _, _ => inject_Z (Z.of_nat (List.length (filter (skill_found ratio cvs) req)))
              / inject_Z (Z.of_nat (List.length req))
    end
  /\ 0 <= ao_match_score ao <= 1.
Proof.
  intros ao req cvs.
  destruct (analyze_match_fields ratio ex exr o cvsk cv_data) as [Hreq E].
  fold ao in Hreq, E. fold req in Hreq. rewrite E, <- Hreq. clearbody ao req.
  unfold match_part, cvs.
  destruct cvsk as [[|c l]|]; simpl;
    try (destruct req; (split; [reflexivity|lra])).
  unfold calculate_skill_match.
  destruct req as [|r rs]; [simpl; split; [reflexivity|lra]|].
  destruct (match_loop ratio (normalize_skill c :: map normalize_skill l) (r :: rs))
    as [m k] eqn:Hml.
  pose proof (match_loop_count ratio Hratio (normalize_skill c :: map normalize_skill l)
                (r :: rs)) as Hk.
  rewrite Hml in Hk. simpl in Hk. simpl. rewrite Hk. split; [reflexivity|].
  pose proof (ratio_unit
    (Z.of_nat (List.length (filter (skill_found ratio (normalize_skill c :: map normalize_skill l)) (r :: rs))))
    (Z.of_nat (List.length (r :: rs)))) as Hu.
  pose proof (filter_length_le' (skill_found ratio (normalize_skill c :: map normalize_skill l)) (r :: rs)).
  rewrite Z.max_r in Hu by (simpl; lia).
  apply Hu. lia.
Qed.

Lemma find_longest_match_empty_r a alo ahi blo :
  find_longest_match a [] alo ahi blo blo = (alo, blo, O).
Proof.
  unfold find_longest_match. rewrite Nat.sub_diag. simpl.
  generalize (alo, blo, O). induction (seq alo (ahi - alo)); simpl; auto.
Qed.

(** [SequenceMatcher(None, a, "").ratio() == 0] for a non-empty [a]. *)
Lemma seq_ratio_empty_r (a : string) : a <> "" -> seq_ratio a "" == 0.
Proof.
  intro Ha. unfold seq_ratio. simpl list_ascii_of_string.
  destruct (List.length (list_ascii_of_string a) + List.length (@nil ascii))%nat eqn:E.
  - exfalso. apply Ha. destruct a; [reflexivity|simpl in E; lia].
  - simpl matched_chars. rewrite find_longest_match_empty_r.
    simpl. unfold Qdiv. now rewrite Qmult_0_l.
Qed.

Lemma basic_match_score_witness :
  (forall a, a <> "" -> seq_ratio a "" == 0) /\
  (let ao := analyze_single_offer seq_ratio (fun _ => []) (fun _ => reqs_da) offer_da
               (Some ["Python"; "Excell"; "SQL"]) [] in
   let req := ao_required_skills ao in
   let cvs := map normalize_skill ["Python"; "Excell"; "SQL"] in
   ao_match_score ao =
     match req, cvs with
     | [], _ | _, [] => 0
     | _, _ => inject_Z (Z.of_nat (List.length (filter (skill_found seq_ratio cvs) req)))
               / inject_Z (Z.of_nat (List.length req))
     end
   /\ 0 <= ao_match_score ao <= 1).
Proof.
  split; [exact seq_ratio_empty_r|].
  exact (basic_match_score seq_ratio seq_ratio_empty_r (fun _ => []) (fun _ => reqs_da)
           offer_da (Some ["Python"; "Excell"; "SQL"]) []).
Defined.

(** C4 (evaluation at the failing input): the single required skill
    ["pandas"] is matched through similarity with the candidate skill
    ["panda"] (ratio [10/11]), the match score is [1], yet the e-mail body
    lists ["pandas"] under the missing-skills section and omits the
    100%-match line: [missing_skills] compares the required skills with
    the annotated entry ["pandas (similar: panda)"]. *)
Theorem email_body_fuzzy_match_listed_missing :
  let cvs := map normalize_skill ["panda"] in
  let body := build_email_body ao_pandas (ao_description ao_pandas) None in
  ao_required_skills ao_pandas = ["pandas"]
  /\ forallb (skill_found seq_ratio cvs) (ao_required_skills ao_pandas) = true
  /\ ao_match_score ao_pandas == 1
  /\ ao_matched_skills ao_pandas = ["pandas (similar: panda)"]
  /\ missing_skills ao_pandas = ["pandas"]
  /\ str_contains missing_header body = true
  /\ str_contains congrats_line body = false.
Proof.
  vm_compute.
  repeat split; reflexivity.
Qed.

(** C5: running the CV analysis step over any list of records leaves a
    record whose [analysis.skills] is already a non-empty list unchanged,
    in particular its whole [analysis] value. *)
Theorem analyze_cvs_keeps_analyzed
    (extract_pdf_text : string -> string) (identify_skills : string -> list string)
    (analyze_experiences : string -> list (string * string))
    (extract_years_experience : string -> option Q)
    (extract_education_level : string -> string)
    (extract_soft_skills extract_certifications : string -> list string)
    (cvs : list CV) (i : nat) (cv : CV) (a : Analysis) (s : string) (ss : list string)
    (Hcv : nth_error cvs i = Some cv)
    (Ha : cv_analysis cv = Some a) (Hs : an_skills a = Some (s :: ss)) :
  let cvs' := analyze_cvs extract_pdf_text identify_skills analyze_experiences
                extract_years_experience extract_education_level extract_soft_skills
                extract_certifications cvs in
  nth_error cvs' i = Some cv
  /\ option_map cv_analysis (nth_error cvs' i) = Some (Some a).
Proof.
  intro cvs'. subst cvs'. unfold analyze_cvs.
  rewrite nth_error_map, Hcv. simpl.
  assert (E : analyze_cv extract_pdf_text identify_skills analyze_experiences
                extract_years_experience extract_education_level extract_soft_skills
                extract_certifications cv = cv).
  { unfold analyze_cv, already_analyzed. now rewrite Ha, Hs. }
  rewrite E. split; [reflexivity|]. simpl. now rewrite Ha.
Qed.

Lemma analyze_cvs_keeps_analyzed_witness :
  nth_error [cv_alice; cv_bob] 0 = Some cv_alice
  /\ cv_analysis cv_alice = Some analysis_alice
  /\ an_skills analysis_alice = Some ("Python" :: ["SQL"; "Tableau"])
  /\ (let cvs' := analyze_cvs (fun _ => "text") (fun _ => ["r"]) (fun _ => [])
                    (fun _ => None) (fun _ => "none") (fun _ => []) (fun _ => [])
                    [cv_alice; cv_bob] in
      nth_error cvs' 0 = Some cv_alice
      /\ option_map cv_analysis (nth_error cvs' 0) = Some (Some analysis_alice)).
Proof.
  split; [reflexivity|]. split; [reflexivity|]. split; [reflexivity|].
  apply (analyze_cvs_keeps_analyzed (fun _ => "text") (fun _ => ["r"]) (fun _ => [])
           (fun _ => None) (fun _ => "none") (fun _ => []) (fun _ => [])
           [cv_alice; cv_bob] 0 cv_alice analysis_alice "Python" ["SQL"; "Tableau"]);
    reflexivity.
Defined.

Lemma str_mem_app1 k l x : str_mem k (app l [x]) = str_mem k l || String.eqb k x.
Proof. unfold str_mem. rewrite existsb_app. simpl. now rewrite orb_false_r. Qed.

Lemma count_key_app1 k out e :
  count_key k (app out [e]) = (count_key k out + if String.eqb (fst e) k then 1 else 0)%nat.
Proof.
  unfold count_key. rewrite filter_app, length_app. simpl.
  destruct (String.eqb (fst e) k); reflexivity.
Qed.

Lemma existsb_filter_length {A} (f : A -> bool) l :
  (0 < List.length (filter f l))%nat -> existsb f l = true.
Proof.
  induction l as [|x l IH]; simpl; [lia|].
  destruct (f x); simpl; [reflexivity|exact IH].
Qed.

Section NotifyLoop.

Variable sender_ok : string -> string -> string -> bool.
Variable description_text : AnalyzedOffer -> string.
Variable recipient : string.
Variable letters : string -> option string.

Lemma notify_loop_return force offers st c :
  exists new,
    outbox (snd (notify_loop sender_ok description_text recipient force letters offers st c))
    = app (outbox st) new
    /\ fst (notify_loop sender_ok description_text recipient force letters offers st c)
       = (c + List.length new)%nat.
Proof.
  revert st c. induction offers as [|o rest IH]; intros st c; simpl.
  - exists []. rewrite app_nil_r. split; [reflexivity|simpl; lia].
  - destruct (str_mem (offer_key o) (sent_notifications st) && negb force); [apply IH|].
    destruct (sender_ok _ _ _); [|apply IH].
    destruct (IH (mkNState (app (sent_notifications st) [offer_key o])
                   (app (outbox st) [(offer_key o, (recipient, build_subject o,
                      build_email_body o (description_text o) (letters (offer_key o))))]))
                 (S c)) as [new [H1 H2]].
    simpl in H1. eexists. split; [rewrite H1, <- app_assoc; reflexivity|].
    rewrite H2. simpl. lia.
Qed.

Hypothesis sender_always_ok : forall a b c, sender_ok a b c = true.

Lemma notify_loop_unforced k offers st c :
  let st' := snd (notify_loop sender_ok description_text recipient false letters offers st c) in
  count_key k (outbox st') =
    (count_key k (outbox st)
     + if str_mem k (sent_notifications st) then 0
       else if existsb (fun o => String.eqb (offer_key o) k) offers then 1 else 0)%nat
  /\ str_mem k (sent_notifications st') =
       str_mem k (sent_notifications st)
       || existsb (fun o => String.eqb (offer_key o) k) offers.
Proof.
  revert st c. induction offers as [|o rest IH]; intros st c; simpl.
  - rewrite orb_false_r. destruct (str_mem k _); split; lia || reflexivity.
  - rewrite andb_true_r.
    destruct (str_mem (offer_key o) (sent_notifications st)) eqn:Hm.
    + destruct (IH st c) as [H1 H2]. rewrite H1, H2.
      destruct (String.eqb (offer_key o) k) eqn:Ek.
      * apply String.eqb_eq in Ek. rewrite Ek in Hm. rewrite Hm. simpl. split; lia || reflexivity.
      * simpl. split; reflexivity.
    + rewrite sender_always_ok.
      match goal with |- context [notify_loop _ _ _ _ _ rest ?s1 ?c1] =>
        destruct (IH s1 c1) as [H1 H2] end.
      rewrite H1, H2. simpl. rewrite count_key_app1, str_mem_app1. simpl.
      destruct (String.eqb (offer_key o) k) eqn:Ek.
      * apply String.eqb_eq in Ek. subst k. rewrite Hm, String.eqb_refl. simpl.
        split; [lia|reflexivity].
      * assert (Ek' : String.eqb k (offer_key o) = false)
          by (rewrite String.eqb_sym; exact Ek).
        rewrite Ek', orb_false_r. simpl. split; [lia|reflexivity].
Qed.

Lemma notify_loop_forced k offers st c :
  count_key k (outbox (snd (notify_loop sender_ok description_text recipient true letters
                                        offers st c)))
  = (count_key k (outbox st) + key_count k offers)%nat.
Proof.
  unfold key_count.
  revert st c. induction offers as [|o rest IH]; intros st c; simpl.
  - lia.
  - rewrite andb_false_r, sender_always_ok, IH. simpl. rewrite count_key_app1. simpl.
    destruct (String.eqb (offer_key o) k); simpl; lia.
Qed.

End NotifyLoop.

Lemma send_notifications_loop sender_ok env desc min analyzed st recipient force letters r :
  resolve_recipient env recipient = Some r ->
  is_valid_email r = true ->
  matched_offers min analyzed <> [] ->
  send_notifications sender_ok env desc min analyzed st recipient force letters
  = notify_loop sender_ok desc r force letters (matched_offers min analyzed) st O.
Proof.
  intros Hr Hv Hm. unfold send_notifications.
  destruct analyzed as [|a0 rest]; [contradiction|].
  rewrite Hr, Hv. simpl negb. cbv iota.
  destruct (matched_offers min (a0 :: rest)); [contradiction|reflexivity].
Qed.

Lemma send_notifications_return sender_ok env desc min analyzed st recipient force letters :
  exists new,
    outbox (snd (send_notifications sender_ok env desc min analyzed st recipient force letters))
    = app (outbox st) new
    /\ fst (send_notifications sender_ok env desc min analyzed st recipient force letters)
       = List.length new.
Proof.
  unfold send_notifications.
  destruct analyzed as [|a0 rest];
    [exists []; rewrite app_nil_r; split; reflexivity|].
  destruct (resolve_recipient env recipient) as [r|];
    [|exists []; rewrite app_nil_r; split; reflexivity].
  destruct (negb (is_valid_email r)); [exists []; rewrite app_nil_r; split; reflexivity|].
  destruct (matched_offers min (a0 :: rest)) as [|m ms];
    [exists []; rewrite app_nil_r; split; reflexivity|].
  apply notify_loop_return.
Qed.

(** C6: within one agent (one state threaded through the calls), with a
    valid recipient, a sender that accepts every e-mail, and one matched
    offer of key [k] not yet recorded, two calls with [force=false] send
    the e-mail for [k] once, two calls with [force=true] send it twice;
    and for any sender the returned count is the number of e-mails the
    sender accepted during the call. *)
Theorem send_notifications_once_unless_forced
    (sender_ok : string -> string -> string -> bool) (env : option string)
    (desc : AnalyzedOffer -> string) (min : Q) (analyzed : list AnalyzedOffer)
    (st : NState) (recipient : option string) (letters : string -> option string)
    (r k : string)
    (Hsend : forall a b c, sender_ok a b c = true)
    (Hr : resolve_recipient env recipient = Some r)
    (Hvalid : is_valid_email r = true)
    (Hk : key_count k (matched_offers min analyzed) = 1%nat)
    (Hfresh : str_mem k (sent_notifications st) = false) :
  let call := fun (force : bool) (s : NState) =>
    snd (send_notifications sender_ok env desc min analyzed s recipient force letters) in
  count_key k (outbox (call false (call false st))) = (count_key k (outbox st) + 1)%nat
  /\ count_key k (outbox (call true (call true st))) = (count_key k (outbox st) + 2)%nat
  /\ (forall sender' force s,
        exists new,
          outbox (snd (send_notifications sender' env desc min analyzed s recipient force letters))
          = app (outbox s) new
          /\ fst (send_notifications sender' env desc min analyzed s recipient force letters)
             = List.length new).
Proof.
  intro call.
  assert (Hne : matched_offers min analyzed <> []).
  { intro E. rewrite E in Hk. discriminate. }
  assert (Hex : existsb (fun o => String.eqb (offer_key o) k) (matched_offers min analyzed) = true).
  { apply existsb_filter_length. unfold key_count in Hk. lia. }
  split; [|split].
  - unfold call. rewrite !(send_notifications_loop _ _ _ _ _ _ _ _ _ r Hr Hvalid Hne).
    set (st1 := snd (notify_loop sender_ok desc r false letters (matched_offers min analyzed) st O)).
    destruct (notify_loop_unforced sender_ok desc r letters Hsend k
                (matched_offers min analyzed) st O) as [H1 H2].
    fold st1 in H1, H2. rewrite Hfresh, Hex in H1, H2. simpl in H2.
    destruct (notify_loop_unforced sender_ok desc r letters Hsend k
                (matched_offers min analyzed) st1 O) as [H3 _].
    rewrite H3, H2, H1. lia.
  - unfold call. rewrite !(send_notifications_loop _ _ _ _ _ _ _ _ _ r Hr Hvalid Hne).
    rewrite !notify_loop_forced by exact Hsend. rewrite Hk. lia.
  - intros. apply send_notifications_return.
Qed.

Lemma send_notifications_once_unless_forced_witness :
  (forall a b c : string, (fun _ _ _ => true) a b c = true)
  /\ resolve_recipient None (Some "alice@example.com") = Some "alice@example.com"
  /\ is_valid_email "alice@example.com" = true
  /\ key_count "Data Analyst_Acme" (matched_offers (7 # 10) [ao_alice]) = 1%nat
  /\ str_mem "Data Analyst_Acme" (sent_notifications (mkNState [] [])) = false
  /\ (let call := fun (force : bool) (s : NState) =>
        snd (send_notifications (fun _ _ _ => true) None ao_description (7 # 10) [ao_alice]
               s (Some "alice@example.com") force (fun _ => None)) in
      count_key "Data Analyst_Acme" (outbox (call false (call false (mkNState [] []))))
        = (count_key "Data Analyst_Acme" (outbox (mkNState [] [])) + 1)%nat
      /\ count_key "Data Analyst_Acme" (outbox (call true (call true (mkNState [] []))))
        = (count_key "Data Analyst_Acme" (outbox (mkNState [] [])) + 2)%nat
      /\ (forall sender' force s,
            exists new,
              outbox (snd (send_notifications sender' None ao_description (7 # 10) [ao_alice]
                             s (Some "alice@example.com") force (fun _ => None)))
              = app (outbox s) new
              /\ fst (send_notifications sender' None ao_description (7 # 10) [ao_alice]
                        s (Some "alice@example.com") force (fun _ => None))
                 = List.length new)).
Proof.
  split; [intros; reflexivity|].
  split; [reflexivity|]. split; [vm_compute; reflexivity|].
  split; [vm_compute; reflexivity|]. split; [reflexivity|].
  apply (send_notifications_once_unless_forced (fun _ _ _ => true) None ao_description
           (7 # 10) [ao_alice] (mkNState [] []) (Some "alice@example.com") (fun _ => None)
           "alice@example.com" "Data Analyst_Acme");
    [intros; reflexivity | reflexivity | vm_compute; reflexivity
    | vm_compute; reflexivity | reflexivity].
Defined.

(** C7: when neither the parameter nor [NOTIFICATION_EMAIL] provides a
    recipient, or the resolved recipient fails [_is_valid_email], the call
    returns [0] and the state (sent list and accepted e-mails) is
    unchanged. *)
Theorem send_notifications_rejects_recipient
    (sender_ok : string -> string -> string -> bool) (env : option string)
    (desc : AnalyzedOffer -> string) (min : Q) (analyzed : list AnalyzedOffer)
    (st : NState) (recipient : option string) (force : bool)
    (letters : string -> option string)
    (Hbad : ((recipient = None \/ recipient = Some "") /\ (env = None \/ env = Some ""))
            \/ (exists r, resolve_recipient env recipient = Some r /\ is_valid_email r = false)) :
  send_notifications sender_ok env desc min analyzed st recipient force letters = (O, st).
Proof.
  unfold send_notifications.
  destruct analyzed as [|a0 rest]; [reflexivity|].
  destruct Hbad as [[Hp He]|[r [Hr Hv]]].
  - assert (E : resolve_recipient env recipient = None).
    { unfold resolve_recipient.
      destruct Hp as [Hp|Hp]; destruct He as [He|He]; subst; reflexivity. }
    now rewrite E.
  - rewrite Hr, Hv. reflexivity.
Qed.

Lemma send_notifications_rejects_recipient_witness :
  (exists r, resolve_recipient (Some "ops@example.com") (Some "alice@localhost") = Some r
             /\ is_valid_email r = false)
  /\ send_notifications (fun _ _ _ => true) (Some "ops@example.com") ao_description (7 # 10)
       [ao_alice] (mkNState ["x_y"] []) (Some "alice@localhost") false (fun _ => None)
     = (O, mkNState ["x_y"] []).
Proof.
  assert (H : exists r, resolve_recipient (Some "ops@example.com") (Some "alice@localhost") = Some r
                        /\ is_valid_email r = false).
  { exists "alice@localhost". split; [reflexivity | vm_compute; reflexivity]. }
  split; [exact H|].
  apply (send_notifications_rejects_recipient (fun _ _ _ => true) (Some "ops@example.com")
           ao_description (7 # 10) [ao_alice] (mkNState ["x_y"] []) (Some "alice@localhost")
           false (fun _ => None)).
  right. exact H.
Defined.

Lemma last_n_length {A} n (l : list A) : (List.length (last_n n l) <= n)%nat.
Proof. unfold last_n. rewrite length_skipn. lia. Qed.

Lemma last_n_app_long {A} n (p t : list A) :
  (n <= List.length t)%nat -> last_n n (app p t) = last_n n t.
Proof.
  intro H. unfold last_n. rewrite length_app, skipn_app.
  rewrite skipn_all2 by lia. simpl. f_equal. lia.
Qed.

Lemma last_n_absorb {A} n (l t : list A) :
  last_n n (app (last_n n l) t) = last_n n (app l t).
Proof.
  destruct (Nat.le_gt_cases (List.length l) n) as [Hle|Hgt].
  - unfold last_n at 2. replace (List.length l - n)%nat with O by lia. reflexivity.
  - rewrite <- (firstn_skipn (List.length l - n) l) at 2.
    rewrite <- app_assoc, (last_n_app_long n (firstn (List.length l - n) l));
      [reflexivity|].
    rewrite length_app, length_skipn. lia.
Qed.

Lemma log_all_spec file r rs :
  load_history (log_all file (r :: rs)) = last_n 50 (app (load_history file) (r :: rs)).
Proof.
  revert file r. induction rs as [|r' rs IH]; intros file r.
  - reflexivity.
  - change (log_all file (r :: r' :: rs))
      with (log_all (log_notification_json file r) (r' :: rs)).
    rewrite IH. unfold log_notification_json. simpl load_history.
    rewrite last_n_absorb, <- app_assoc. reflexivity.
Qed.

(** C8: after every append through the JSON path, the history file holds
    at most 50 records, namely the last 50 of its previous content
    followed by the appended records; from a fresh file, these are the
    last 50 appended records (60 appends keep the most recent 50). *)
Theorem notification_history_capped (file : option (list NotifRecord))
    (r : NotifRecord) (rs : list NotifRecord) :
  let h := load_history (log_all file (r :: rs)) in
  (List.length h <= 50)%nat
  /\ h = last_n 50 (app (load_history file) (r :: rs))
  /\ load_history (log_all None (r :: rs)) = last_n 50 (r :: rs).
Proof.
  intro h. subst h. rewrite !log_all_spec.
  split; [apply last_n_length|]. split; reflexivity.
Qed.

(** [RateLimiter.__enter__] leaves the first kept timestamp inside the
    window. *)
Lemma prune_head now tw ts t rest :
  prune now tw ts = t :: rest -> now - tw <= t.
Proof.
  induction ts as [|t0 ts IH]; simpl; [discriminate|].
  destruct (Qltb t0 (now - tw)) eqn:E; [exact IH|].
  intro H. inversion H; subst. now apply Qltb_false.
Qed.

(** C9: for a limiter with [max_requests = 2] and [time_window = 1], when
    the pruned deque holds two timestamps [t1; t2] on entry at [now], the
    acquisition sleeps [t1 + 1 - now] whenever that delay is positive (no
    sleep when it is [0]); with [now_after] the clock read after a sleep of
    at least that delay, it re-prunes at the clock [t] it then records,
    which is at least [t1 + 1], and appends [t]. *)
Theorem rate_limiter_third_acquire (ts : list Q) (t1 t2 now now_after : Q)
    (Hpruned : prune now 1 ts = [t1; t2])
    (Hslept : now + (t1 + 1 - now) <= now_after) :
  let wait := t1 + 1 - now in
  let t := if Qltb 0 wait then now_after else now in
  rl_enter 2 1 ts now now_after
    = Some (if Qltb 0 wait then Some wait else None, app (prune t 1 [t1; t2]) [t])
  /\ 0 <= wait
  /\ t1 + 1 <= t.
Proof.
  intros wait t.
  pose proof (prune_head now 1 ts t1 [t2] Hpruned) as Hin.
  assert (Hw : 0 <= wait) by (unfold wait; lra).
  unfold rl_enter. rewrite Hpruned. simpl (2 <=? List.length [t1; t2])%nat. cbv iota.
  fold wait. unfold t.
  destruct (Qltb 0 wait) eqn:Ew.
  - split; [reflexivity|]. split; [exact Hw|]. unfold wait in Hslept. lra.
  - apply Qltb_false in Ew.
    assert (Hkeep : prune now 1 [t1; t2] = [t1; t2]).
    { assert (Hf : Qltb t1 (now - 1) = false).
      { unfold Qltb. apply negb_false_iff. now apply Qle_bool_iff. }
      simpl. now rewrite Hf. }
    rewrite Hkeep. split; [reflexivity|]. split; [exact Hw|]. unfold wait in Ew. lra.
Qed.

Lemma rate_limiter_third_acquire_witness :
  prune (105 # 100) 1 [10 # 100; 50 # 100] = [10 # 100; 50 # 100]
  /\ (105 # 100) + ((10 # 100) + 1 - (105 # 100)) <= 111 # 100
  /\ (let wait := (10 # 100) + 1 - (105 # 100) in
      let t := if Qltb 0 wait then 111 # 100 else 105 # 100 in
      rl_enter 2 1 [10 # 100; 50 # 100] (105 # 100) (111 # 100)
        = Some (if Qltb 0 wait then Some wait else None,
                app (prune t 1 [10 # 100; 50 # 100]) [t])
      /\ 0 <= wait
      /\ (10 # 100) + 1 <= t).
Proof.
  split; [vm_compute; reflexivity|].
  split; [vm_compute; discriminate|].
  apply (rate_limiter_third_acquire [10 # 100; 50 # 100] (10 # 100) (50 # 100)
           (105 # 100) (111 # 100)); vm_compute; [reflexivity | discriminate].
Defined.

(** C10 (counterexample to the unrestricted statement): a CV record whose
    analysis has [years_experience = -10], against an offer requiring 5
    years, gets an experience component of [-2] and an [ats_score] of
    [-0.37], below [0.03]. *)
Lemma ats_score_floor_negative_years :
  ao_ats_score (analyze_single_offer seq_ratio (fun _ => []) (fun _ => reqs_da)
                  offer_da None [cv_dan]) = Some (Qmake (-3700) 10000)
  /\ Qmake (-3700) 10000 < 3 # 100.
Proof. split; vm_compute; reflexivity. Qed.

(* ================================================================== *)
(** ** The stable descending sort *)

Lemma Permutation_filter_compat {A} (f : A -> bool) (l l' : list A) :
  Permutation l l' -> Permutation (filter f l) (filter f l').
Proof.
  induction 1; simpl.
  - constructor.
  - destruct (f x); [constructor|]; assumption.
  - destruct (f x), (f y); try constructor; reflexivity.
  - etransitivity; eassumption.
Qed.

Lemma StronglySorted_app_rel {A} (R : A -> A -> Prop) (l1 l2 : list A) :
  StronglySorted R (app l1 l2) -> forall x y, In x l1 -> In y l2 -> R x y.
Proof.
  induction l1 as [|a l1 IH]; simpl; intros Hs x y Hx Hy; [contradiction|].
  apply StronglySorted_inv in Hs as [Hs Ha].
  destruct Hx as [<-|Hx].
  - rewrite Forall_forall in Ha. apply Ha. apply in_or_app. now right.
  - now apply IH.
Qed.

Lemma StronglySorted_app_l {A} (R : A -> A -> Prop) (l1 l2 : list A) :
  StronglySorted R (app l1 l2) -> StronglySorted R l1.
Proof.
  induction l1 as [|a l1 IH]; simpl; intro Hs; [constructor|].
  apply StronglySorted_inv in Hs as [Hs Ha]. constructor; [now apply IH|].
  rewrite Forall_forall in *. intros x Hx. apply Ha. apply in_or_app. now left.
Qed.

Lemma StronglySorted_filter {A} (R : A -> A -> Prop) (f : A -> bool) (l : list A) :
  StronglySorted R l -> StronglySorted R (filter f l).
Proof.
  induction l as [|a l IH]; simpl; intro Hs; [constructor|].
  apply StronglySorted_inv in Hs as [Hs Ha].
  destruct (f a); [|now apply IH].
  constructor; [now apply IH|].
  rewrite Forall_forall in *. intros x Hx. apply filter_In in Hx as [Hx _]. now apply Ha.
Qed.

Lemma StronglySorted_impl {A} (R R' : A -> A -> Prop) (l : list A) :
  (forall x y, R x y -> R' x y) -> StronglySorted R l -> StronglySorted R' l.
Proof.
  intro HR. induction l as [|a l IH]; intro Hs; [constructor|].
  apply StronglySorted_inv in Hs as [Hs Ha]. constructor; [now apply IH|].
  eapply Forall_impl; [|exact Ha]. intros x. apply HR.
Qed.

Lemma py_take_firstn {A} (n : Z) (l : list A) :
  py_take n l = firstn (if (0 <=? n)%Z then Z.to_nat n
                        else (List.length l - Z.to_nat (- n))%nat) l.
Proof.
  unfold py_take. destruct (0 <=? n)%Z eqn:E; [reflexivity|].
  apply Z.leb_gt in E. f_equal. lia.
Qed.

Section SortDesc.

Context {A : Type} (before : A -> A -> bool).

Hypothesis before_asym : forall x y, before x y = true -> before y x = false.
Hypothesis not_before_trans :
  forall x y z, before y x = false -> before z y = false -> before z x = false.

Lemma insert_desc_perm x l : Permutation (insert_desc before x l) (x :: l).
Proof.
  induction l as [|y l IH]; simpl; [reflexivity|].
  destruct (before x y); [reflexivity|].
  rewrite IH. apply perm_swap.
Qed.

Lemma sort_desc_perm_acc l acc :
  Permutation (fold_left (fun acc x => insert_desc before x acc) l acc) (app acc l).
Proof.
  revert acc. induction l as [|x l IH]; intro acc; simpl.
  - rewrite app_nil_r. reflexivity.
  - rewrite IH. rewrite (insert_desc_perm x acc). simpl.
    apply Permutation_middle.
Qed.

Lemma sort_desc_perm l : Permutation (sort_desc before l) l.
Proof. unfold sort_desc. rewrite sort_desc_perm_acc. reflexivity. Qed.

Lemma insert_desc_sorted x l :
  StronglySorted (fun a b => before b a = false) l ->
  StronglySorted (fun a b => before b a = false) (insert_desc before x l).
Proof.
  induction l as [|y l IH]; intro Hs; cbn [insert_desc].
  - repeat constructor.
  - apply StronglySorted_inv in Hs as [Hs Hy].
    destruct (before x y) eqn:Exy.
    + constructor; [constructor; assumption|].
      constructor; [now apply before_asym|].
      eapply Forall_impl; [|exact Hy]. intros z Hz. cbv beta in Hz.
      eapply not_before_trans; [apply before_asym; exact Exy | exact Hz].
    + constructor; [now apply IH|].
      apply (Permutation_Forall (Permutation_sym (insert_desc_perm x l))).
      constructor; [exact Exy | exact Hy].
Qed.

Lemma sort_desc_sorted l :
  StronglySorted (fun a b => before b a = false) (sort_desc before l).
Proof.
  unfold sort_desc.
  assert (H : StronglySorted (fun a b => before b a = false) (@nil A)) by constructor.
  revert H. generalize (@nil A).
  induction l as [|x l IH]; intros acc Hacc; simpl; [exact Hacc|].
  apply IH. now apply insert_desc_sorted.
Qed.

Variable P : A -> bool.
Hypothesis P_tied : forall x y, P x = true -> P y = true -> before x y = false.

Lemma insert_desc_filter_out x l :
  P x = false -> filter P (insert_desc before x l) = filter P l.
Proof.
  induction l as [|y l IH]; intro Hx; cbn [insert_desc]; [simpl; now rewrite Hx|].
  destruct (before x y).
  - simpl. now rewrite Hx.
  - simpl. destruct (P y); now rewrite IH.
Qed.

Lemma filter_all_false {B} (f : B -> bool) (l : list B) :
  (forall z, In z l -> f z = false) -> filter f l = [].
Proof.
  induction l as [|a l IH]; intro H; simpl; [reflexivity|].
  rewrite H by now left. apply IH. intros z Hz. apply H. now right.
Qed.

Lemma insert_desc_filter_in x l :
  StronglySorted (fun a b => before b a = false) l -> P x = true ->
  filter P (insert_desc before x l) = app (filter P l) [x].
Proof.
  induction l as [|y l IH]; intros Hs Hx; cbn [insert_desc]; [simpl; now rewrite Hx|].
  apply StronglySorted_inv in Hs as [Hs Hy].
  destruct (before x y) eqn:Exy.
  - assert (Hf : filter P (y :: l) = []).
    { apply filter_all_false. intros z Hz.
      destruct (P z) eqn:Pz; [|reflexivity]. exfalso.
      destruct Hz as [<-|Hz].
      + rewrite (P_tied x y Hx Pz) in Exy. discriminate.
      + rewrite Forall_forall in Hy. specialize (Hy z Hz). cbv beta in Hy.
        pose proof (not_before_trans y z x Hy (P_tied x z Hx Pz)). congruence. }
    replace (filter P (x :: y :: l)) with (x :: filter P (y :: l)) by (simpl; now rewrite Hx).
    rewrite Hf. reflexivity.
  - simpl. rewrite IH by assumption. destruct (P y); reflexivity.
Qed.

Lemma sort_desc_filter_acc l acc :
  StronglySorted (fun a b => before b a = false) acc ->
  filter P (fold_left (fun acc x => insert_desc before x acc) l acc)
  = app (filter P acc) (filter P l).
Proof.
  revert acc. induction l as [|x l IH]; intros acc Hacc; simpl.
  - now rewrite app_nil_r.
  - rewrite IH by (now apply insert_desc_sorted).
    destruct (P x) eqn:Px.
    + rewrite insert_desc_filter_in by assumption. now rewrite <- app_assoc.
    + now rewrite insert_desc_filter_out.
Qed.

Lemma sort_desc_filter l : filter P (sort_desc before l) = filter P l.
Proof. unfold sort_desc. rewrite sort_desc_filter_acc by constructor. reflexivity. Qed.

End SortDesc.

Lemma by_match_score_asym x y :
  by_match_score x y = true -> by_match_score y x = false.
Proof.
  unfold by_match_score. intro H. apply Qltb_true in H.
  destruct (Qltb (ao_match_score x) (ao_match_score y)) eqn:E; [|reflexivity].
  apply Qltb_true in E. lra.
Qed.

Lemma by_match_score_trans x y z :
  by_match_score y x = false -> by_match_score z y = false -> by_match_score z x = false.
Proof.
  unfold by_match_score. intros H1 H2. apply Qltb_false in H1. apply Qltb_false in H2.
  destruct (Qltb (ao_match_score x) (ao_match_score z)) eqn:E; [|reflexivity].
  apply Qltb_true in E. lra.
Qed.

(** ** The order of timestamps (Python's [str] comparison) *)

Lemma str_compare_lt_trans x y z :
  String.compare x y = Lt -> String.compare y z = Lt -> String.compare x z = Lt.
Proof.
  revert y z; induction x as [|a x IH]; intros [|b y] [|c z]; cbn [String.compare];
    try congruence.
  unfold Ascii.compare.
  destruct (N.compare_spec (N_of_ascii a) (N_of_ascii b)) as [E1|E1|E1];
  destruct (N.compare_spec (N_of_ascii b) (N_of_ascii c)) as [E2|E2|E2];
  intros H1 H2; try discriminate;
  destruct (N.compare_spec (N_of_ascii a) (N_of_ascii c)); try lia; eauto.
Qed.

Lemma str_ltb_asym x y : String.ltb x y = true -> String.ltb y x = false.
Proof.
  unfold String.ltb. rewrite (String.compare_antisym y x).
  destruct (String.compare x y); simpl; congruence.
Qed.

Lemma str_ltb_false_trans x y z :
  String.ltb x y = false -> String.ltb y z = false -> String.ltb x z = false.
Proof.
  unfold String.ltb. intros H1 H2.
  destruct (String.compare x z) eqn:Exz; [reflexivity| |reflexivity]. exfalso.
  destruct (String.compare x y) eqn:Exy; try discriminate.
  - apply String.compare_eq_iff in Exy. subst y. rewrite Exz in H2. discriminate.
  - destruct (String.compare y z) eqn:Eyz; try discriminate.
    + apply String.compare_eq_iff in Eyz. subst z. congruence.
    + rewrite String.compare_antisym in Exy, Eyz.
      destruct (String.compare y x) eqn:Eyx; try discriminate.
      destruct (String.compare z y) eqn:Ezy; try discriminate.
      pose proof (str_compare_lt_trans _ _ _ Ezy Eyx) as Ezx.
      rewrite String.compare_antisym, Ezx in Exz. discriminate.
Qed.

Lemma str_ltb_total x y : String.ltb x y = false -> String.ltb y x = false -> x = y.
Proof.
  unfold String.ltb. intros H1 H2. rewrite String.compare_antisym in H1.
  destruct (String.compare y x) eqn:E; simpl in *; try discriminate.
  now apply String.compare_eq_iff in E.
Qed.

Lemma by_timestamp_asym x y : by_timestamp x y = true -> by_timestamp y x = false.
Proof. unfold by_timestamp. apply str_ltb_asym. Qed.

Lemma by_timestamp_trans x y z :
  by_timestamp y x = false -> by_timestamp z y = false -> by_timestamp z x = false.
Proof. unfold by_timestamp. intros H1 H2. exact (str_ltb_false_trans _ _ _ H1 H2). Qed.

Lemma filter_email_sorted u h :
  Permutation (filter_email u (sort_desc by_timestamp h)) (filter_email u h)
  /\ StronglySorted (fun a b => by_timestamp b a = false)
       (filter_email u (sort_desc by_timestamp h)).
Proof.
  pose proof (sort_desc_perm by_timestamp h) as Hp.
  pose proof (sort_desc_sorted by_timestamp by_timestamp_asym by_timestamp_trans h) as Hs.
  unfold filter_email. destruct u as [e|]; [destruct (String.eqb e "")|]; try now split.
  split; [now apply Permutation_filter_compat|now apply StronglySorted_filter].
Qed.

Lemma firstn_top {A} (R : A -> A -> Prop) k (l : list A) :
  StronglySorted R l ->
  StronglySorted R (firstn k l)
  /\ Permutation (app (firstn k l) (skipn k l)) l
  /\ (forall a b, In a (firstn k l) -> In b (skipn k l) -> R a b).
Proof.
  intro Hs. rewrite <- (firstn_skipn k l) in Hs. split; [|split].
  - eapply StronglySorted_app_l; exact Hs.
  - rewrite firstn_skipn. reflexivity.
  - now apply StronglySorted_app_rel.
Qed.

Lemma sum_Z_perm {A} (f : A -> Z) (l l' : list A) :
  Permutation l l' -> fold_right Z.add 0%Z (map f l) = fold_right Z.add 0%Z (map f l').
Proof. induction 1; simpl; lia. Qed.

Lemma log_all_some file r rs : exists h, log_all file (r :: rs) = Some h.
Proof.
  revert file r. induction rs as [|r' rs IH]; intros file r.
  - eexists. reflexivity.
  - change (log_all file (r :: r' :: rs))
      with (log_all (log_notification_json file r) (r' :: rs)). apply IH.
Qed.

Lemma filter_email_length u h :
  (List.length (filter_email u h) <= List.length h)%nat.
Proof.
  unfold filter_email. destruct u as [e|]; [destruct (String.eqb e "")|]; try lia.
  apply filter_length_le'.
Qed.

Lemma str_ltb_irrefl x : String.ltb x x = false.
Proof.
  unfold String.ltb. replace (String.compare x x) with Eq; [reflexivity|].
  induction x as [|a x IH]; cbn [String.compare]; [reflexivity|].
  unfold Ascii.compare. now rewrite N.compare_refl.
Qed.

Lemma get_notification_stats_json_some history u :
  let hist := filter_email u history in
  let s := get_notification_stats_json (Some history) u in
  st_total_sent s = List.length hist
  /\ st_total_jobs s = fold_right Z.add 0%Z (map nr_job_count hist)
  /\ (hist = [] /\ s = no_stats
      \/ exists n, In n hist /\ st_last_notification s = Some (nr_timestamp n)
                   /\ forall m, In m hist -> String.ltb (nr_timestamp n) (nr_timestamp m) = false).
Proof.
  cbv zeta. unfold get_notification_stats_json.
  destruct (filter_email u history) as [|a l] eqn:E.
  - split; [reflexivity|split; [reflexivity|left; now split]].
  - pose proof (sort_desc_perm by_timestamp (a :: l)) as Hp.
    pose proof (sort_desc_sorted by_timestamp by_timestamp_asym by_timestamp_trans (a :: l)) as Hs.
    split; [cbn [st_total_sent]; now apply Permutation_length|].
    split; [cbn [st_total_jobs]; now apply sum_Z_perm|].
    right. destruct (sort_desc by_timestamp (a :: l)) as [|n rest] eqn:Es.
    + apply Permutation_length in Hp. discriminate.
    + exists n. split; [apply (Permutation_in _ Hp); now left|].
      split; [reflexivity|].
      intros m Hm. apply (Permutation_in _ (Permutation_sym Hp)) in Hm.
      apply StronglySorted_inv in Hs as [_ Hn]. rewrite Forall_forall in Hn.
      destruct Hm as [<-|Hm]; [apply str_ltb_irrefl|]. exact (Hn m Hm).
Qed.

(* ================================================================== *)
(** * Further properties of the code *)

(** [get_best_matches]: the result has [min top_n (len offers)] offers
    ([len offers - |top_n|] for a negative [top_n], as Python slicing
    does), in non-increasing order of [match_score]; together with the
    offers left out it is a permutation of the input, and no offer left
    out scores higher than a returned one.  The sort is stable: among
    offers of any one score, those returned are the first ones of the
    input order. *)
Theorem get_best_matches_top (offers : list AnalyzedOffer) (top_n : Z) :
  let best := get_best_matches offers top_n in
  List.length best = (if (0 <=? top_n)%Z then Nat.min (Z.to_nat top_n) (List.length offers)
                      else (List.length offers - Z.to_nat (- top_n))%nat)
  /\ StronglySorted (fun a b => ao_match_score b <= ao_match_score a) best
  /\ (exists rest, Permutation (app best rest) offers
        /\ forall a b, In a best -> In b rest -> ao_match_score b <= ao_match_score a)
  /\ (forall q, exists later,
        filter (fun o => Qeq_bool (ao_match_score o) q) offers
        = app (filter (fun o => Qeq_bool (ao_match_score o) q) best) later).
Proof.
  cbv zeta. unfold get_best_matches. rewrite py_take_firstn.
  set (k := if (0 <=? top_n)%Z then _ else _).
  pose proof (sort_desc_perm by_match_score offers) as Hp.
  pose proof (sort_desc_sorted by_match_score by_match_score_asym by_match_score_trans offers)
    as Hs.
  apply (StronglySorted_impl _ (fun a b => ao_match_score b <= ao_match_score a)) in Hs;
    [|intros x y H; unfold by_match_score in H; now apply Qltb_false in H].
  destruct (firstn_top _ k _ Hs) as [H1 [H2 H3]].
  split; [|split; [exact H1|split]].
  - rewrite length_firstn, (Permutation_length Hp). subst k.
    rewrite ?(Permutation_length Hp). destruct (0 <=? top_n)%Z; lia.
  - exists (skipn k (sort_desc by_match_score offers)). split; [|exact H3].
    rewrite H2. exact Hp.
  - intro q. exists (filter (fun o => Qeq_bool (ao_match_score o) q)
                        (skipn k (sort_desc by_match_score offers))).
    rewrite <- filter_app, firstn_skipn.
    symmetry. apply sort_desc_filter.
    + exact by_match_score_asym.
    + exact by_match_score_trans.
    + intros x y Hx Hy. apply Qeq_bool_iff in Hx, Hy. unfold by_match_score.
      destruct (Qltb (ao_match_score y) (ao_match_score x)) eqn:E; [|reflexivity].
      apply Qltb_true in E. exfalso. rewrite Hx, Hy in E. apply (Qlt_irrefl q E).
Qed.

(** [get_notification_history] (JSON file): the result is the newest
    [limit] records of the user (all records when no e-mail is given),
    newest first: its length is [min limit n] for the [n] records of the
    user ([n - |limit|] for a negative [limit]), and with the records
    left out it is a permutation of the user's records, none of which is
    more recent than a returned one. *)
Theorem get_notification_history_json_recent history user_email limit :
  let h := get_notification_history_json (Some history) user_email limit in
  let mine := filter_email user_email history in
  List.length h = (if (0 <=? limit)%Z then Nat.min (Z.to_nat limit) (List.length mine)
                   else (List.length mine - Z.to_nat (- limit))%nat)
  /\ StronglySorted (fun a b => String.ltb (nr_timestamp a) (nr_timestamp b) = false) h
  /\ (exists rest, Permutation (app h rest) mine
        /\ forall a b, In a h -> In b rest ->
             String.ltb (nr_timestamp a) (nr_timestamp b) = false).
Proof.
  cbv zeta. unfold get_notification_history_json. rewrite py_take_firstn.
  destruct (filter_email_sorted user_email history) as [Hp Hs].
  set (k := if (0 <=? limit)%Z then _ else _).
  destruct (firstn_top _ k _ Hs) as [H1 [H2 H3]].
  split; [|split; [exact H1|]].
  - rewrite length_firstn, (Permutation_length Hp). subst k.
    rewrite ?(Permutation_length Hp). destruct (0 <=? limit)%Z; lia.
  - eexists. split; [rewrite H2; exact Hp|exact H3].
Qed.

(** [get_notification_stats] (JSON file) after [log_notification] has
    written at least one record: [total_sent] is the number of the
    user's records in the file and is at most 50 (the file keeps the
    last 50), [total_jobs] the sum of their [job_count], and
    [last_notification] is the greatest timestamp among them, or the
    stats are all zero when the user has no record. *)
Theorem notification_stats_after_log file r rs user_email :
  let hist := filter_email user_email (load_history (log_all file (r :: rs))) in
  let s := get_notification_stats_json (log_all file (r :: rs)) user_email in
  (st_total_sent s <= 50)%nat
  /\ st_total_sent s = List.length hist
  /\ st_total_jobs s = fold_right Z.add 0%Z (map nr_job_count hist)
  /\ (hist = [] /\ s = no_stats
      \/ exists n, In n hist /\ st_last_notification s = Some (nr_timestamp n)
                   /\ forall m, In m hist -> String.ltb (nr_timestamp n) (nr_timestamp m) = false).
Proof.
  cbv zeta. destruct (log_all_some file r rs) as [h Eh].
  pose proof (log_all_spec file r rs) as Hl. rewrite Eh in *. cbn [load_history] in *.
  destruct (get_notification_stats_json_some h user_email) as [A [B C]].
  split; [|now split].
  rewrite A. pose proof (filter_email_length user_email h).
  pose proof (last_n_length 50 (app (load_history file) (r :: rs))). rewrite <- Hl in *. lia.
Qed.

(** ** What [send_notifications] adds to the agent's state *)

Lemma notify_loop_trace sender_ok desc r force letters offers st c :
  let res := notify_loop sender_ok desc r force letters offers st c in
  exists new,
    outbox (snd res) = app (outbox st) new
    /\ sent_notifications (snd res) = app (sent_notifications st) (map fst new)
    /\ fst res = (c + List.length new)%nat
    /\ (forall e, In e new -> exists o, In o offers
          /\ sender_ok r (build_subject o)
               (build_email_body o (desc o) (letters (offer_key o))) = true
          /\ e = (offer_key o, (r, build_subject o,
                                build_email_body o (desc o) (letters (offer_key o)))))
    /\ (force = false -> NoDup (map fst new)
          /\ forall k, In k (map fst new) -> ~ In k (sent_notifications st)).
Proof.
  cbv zeta. revert st c. induction offers as [|o rest IH]; intros st c; simpl.
  - exists []. simpl. rewrite !app_nil_r.
    split; [reflexivity|split; [reflexivity|split; [lia|split]]];
      [intros e []|intros _; split; [constructor|intros k []]].
  - destruct (str_mem (offer_key o) (sent_notifications st) && negb force) eqn:Eskip.
    + destruct (IH st c) as [new [H1 [H2 [H3 [H4 H5]]]]].
      exists new. split; [exact H1|split; [exact H2|split; [exact H3|split; [|exact H5]]]].
      intros e He. destruct (H4 e He) as [o' [Ho' Ho'']]. exists o'. split; [now right|exact Ho''].
    + destruct (sender_ok r (build_subject o)
                  (build_email_body o (desc o) (letters (offer_key o)))) eqn:Eok.
      * match goal with |- context [notify_loop _ _ _ _ _ rest ?s1 ?c1] =>
          destruct (IH s1 c1) as [new [H1 [H2 [H3 [H4 H5]]]]] end.
        cbn [outbox sent_notifications] in *.
        eexists (_ :: new). rewrite H1, H2, H3, <- !app_assoc. cbn [map List.length].
        split; [reflexivity|split; [reflexivity|split; [lia|split]]].
        -- intros e [<-|He].
           ++ exists o. split; [now left|split; [exact Eok|reflexivity]].
           ++ destruct (H4 e He) as [o' [Ho' Ho'']]. exists o'. split; [now right|exact Ho''].
        -- intro Hf. subst force. rewrite andb_true_r in Eskip.
           destruct (H5 eq_refl) as [Hnd Hnot]. cbn [fst]. split.
           ++ constructor; [|exact Hnd]. intro Hin. apply (Hnot _ Hin).
              apply in_or_app. right. now left.
           ++ intros k [<-|Hk].
              ** intro Hin. apply str_mem_In in Hin. congruence.
              ** intro Hin. apply (Hnot _ Hk). apply in_or_app. now left.
      * destruct (IH st c) as [new [H1 [H2 [H3 [H4 H5]]]]].
        exists new. split; [exact H1|split; [exact H2|split; [exact H3|split; [|exact H5]]]].
        intros e He. destruct (H4 e He) as [o' [Ho' Ho'']]. exists o'. split; [now right|exact Ho''].
Qed.

Lemma send_notifications_cases sender_ok env desc min analyzed st recipient force letters :
  send_notifications sender_ok env desc min analyzed st recipient force letters = (O, st)
  \/ exists r, resolve_recipient env recipient = Some r /\ is_valid_email r = true
       /\ matched_offers min analyzed <> []
       /\ send_notifications sender_ok env desc min analyzed st recipient force letters
          = notify_loop sender_ok desc r force letters (matched_offers min analyzed) st O.
Proof.
  destruct (resolve_recipient env recipient) as [r|] eqn:Hr;
    [|left; unfold send_notifications; rewrite Hr; now destruct analyzed].
  destruct (is_valid_email r) eqn:Hv;
    [|left; unfold send_notifications; rewrite Hr, Hv; now destruct analyzed].
  assert (Hcase : matched_offers min analyzed = [] \/ matched_offers min analyzed <> [])
    by (destruct (matched_offers min analyzed); [left|right]; congruence).
  destruct Hcase as [Hm|Hne].
  - left. unfold send_notifications. rewrite Hr, Hv, Hm. now destruct analyzed.
  - right. exists r. split; [first [exact Hr|reflexivity]|split; [first [exact Hv|reflexivity]|]].
    split; [exact Hne|]. exact (send_notifications_loop _ _ _ _ _ _ _ _ _ r Hr Hv Hne).
Qed.

Lemma send_notifications_trace_gen sender_ok env desc min analyzed st recipient force letters :
  let res := send_notifications sender_ok env desc min analyzed st recipient force letters in
  exists new,
    outbox (snd res) = app (outbox st) new
    /\ sent_notifications (snd res) = app (sent_notifications st) (map fst new)
    /\ fst res = List.length new
    /\ (forall e, In e new -> exists r o,
          resolve_recipient env recipient = Some r /\ is_valid_email r = true
          /\ In o analyzed /\ min <= ao_match_score o
          /\ sender_ok r (build_subject o)
               (build_email_body o (desc o) (letters (offer_key o))) = true
          /\ e = (offer_key o, (r, build_subject o,
                                build_email_body o (desc o) (letters (offer_key o)))))
    /\ (force = false -> NoDup (map fst new)
          /\ forall k, In k (map fst new) -> ~ In k (sent_notifications st)).
Proof.
  cbv zeta.
  destruct (send_notifications_cases sender_ok env desc min analyzed st recipient force letters)
    as [E|[r [Hr [Hv [Hne E]]]]]; rewrite E.
  - exists []. cbn [fst snd map]. rewrite !app_nil_r.
    split; [reflexivity|split; [reflexivity|split; [reflexivity|split]]];
      [intros e []|intros _; split; [constructor|intros k []]].
  - destruct (notify_loop_trace sender_ok desc r force letters (matched_offers min analyzed) st O)
      as [new [A [B [C [D F]]]]].
    exists new. split; [exact A|split; [exact B|split; [exact C|split; [|exact F]]]].
    intros e He. destruct (D e He) as [o [Ho Ho']].
    unfold matched_offers in Ho. apply filter_In in Ho as [Ho Hq].
    exists r, o. split; [exact Hr|split; [exact Hv|split; [exact Ho|split; [|exact Ho']]]].
    now apply Qle_bool_iff.
Qed.

(** [send_notifications] only ever adds e-mails it has sent: the sent
    list grows by exactly the keys of the e-mails the sender accepted, in
    order, and the return value is their number.  Each of them went to
    the resolved recipient, which passed [_is_valid_email], and is for an
    analyzed offer whose [match_score] is at least [min_match_score], with
    the subject and body built from that offer. *)
Theorem send_notifications_sends_only_matches sender_ok env desc min analyzed st recipient
    force letters :
  let res := send_notifications sender_ok env desc min analyzed st recipient force letters in
  exists new,
    outbox (snd res) = app (outbox st) new
    /\ sent_notifications (snd res) = app (sent_notifications st) (map fst new)
    /\ fst res = List.length new
    /\ (forall e, In e new -> exists r o,
          resolve_recipient env recipient = Some r /\ is_valid_email r = true
          /\ In o analyzed /\ min <= ao_match_score o
          /\ sender_ok r (build_subject o)
               (build_email_body o (desc o) (letters (offer_key o))) = true
          /\ e = (offer_key o, (r, build_subject o,
                                build_email_body o (desc o) (letters (offer_key o))))).
Proof.
  cbv zeta.
  destruct (send_notifications_trace_gen sender_ok env desc min analyzed st recipient force letters)
    as [new [A [B [C [D _]]]]].
  exists new. now repeat split.
Qed.

(** The sent list is one per agent, not per recipient: after a first
    call (forced or not, for any recipient), a second call with
    [force=False], for any recipient and any analyzed offers, sends no
    offer key twice and sends no key that was sent before, in particular
    none that the first call sent. *)
Theorem send_notifications_no_resend sender1 sender2 env desc1 desc2 min1 min2
    analyzed1 analyzed2 st ra rb fa la lb :
  let st1 := snd (send_notifications sender1 env desc1 min1 analyzed1 st ra fa la) in
  let st2 := snd (send_notifications sender2 env desc2 min2 analyzed2 st1 rb false lb) in
  exists new1 new2,
    outbox st1 = app (outbox st) new1 /\ outbox st2 = app (outbox st1) new2
    /\ NoDup (map fst new2)
    /\ forall k, In k (map fst new2) ->
         ~ In k (map fst new1) /\ ~ In k (sent_notifications st).
Proof.
  cbv zeta.
  destruct (send_notifications_trace_gen sender1 env desc1 min1 analyzed1 st ra fa la)
    as [new1 [A1 [B1 _]]].
  set (st1 := snd (send_notifications sender1 env desc1 min1 analyzed1 st ra fa la)) in *.
  destruct (send_notifications_trace_gen sender2 env desc2 min2 analyzed2 st1 rb false lb)
    as [new2 [A2 [B2 [_ [_ E2]]]]].
  destruct (E2 eq_refl) as [Hnd Hnot].
  exists new1, new2. split; [exact A1|split; [exact A2|split; [exact Hnd|]]].
  intros k Hk. specialize (Hnot k Hk). rewrite B1 in Hnot.
  split; intro Hin; apply Hnot; apply in_or_app; [right|left]; exact Hin.
Qed.

(** After [clear_notification_history], a call with [force=False], a
    valid recipient and a sender that accepts everything sends one e-mail
    per distinct offer key among the offers at or above the threshold:
    the keys sent are pairwise distinct and are exactly those keys. *)
Theorem clear_then_send_each_key_once sender_ok env desc min analyzed st recipient letters r
    (Hsend : forall a b c, sender_ok a b c = true)
    (Hr : resolve_recipient env recipient = Some r)
    (Hv : is_valid_email r = true) :
  let res := send_notifications sender_ok env desc min analyzed
               (clear_notification_history st) recipient false letters in
  exists new,
    outbox (snd res) = app (outbox st) new
    /\ fst res = List.length new
    /\ NoDup (map fst new)
    /\ forall k, In k (map fst new) <->
         exists o, In o analyzed /\ min <= ao_match_score o /\ offer_key o = k.
Proof.
  cbv zeta.
  destruct (send_notifications_trace_gen sender_ok env desc min analyzed
              (clear_notification_history st) recipient false letters)
    as [new [A [B [C [_ E]]]]].
  destruct (E eq_refl) as [Hnd _].
  exists new. split; [exact A|split; [exact C|split; [exact Hnd|]]].
  intro k. cbn [sent_notifications clear_notification_history app] in B.
  assert (Hcase : matched_offers min analyzed = [] \/ matched_offers min analyzed <> [])
    by (destruct (matched_offers min analyzed); [left|right]; congruence).
  destruct Hcase as [Hm|Hne].
  - assert (Hres : send_notifications sender_ok env desc min analyzed
                     (clear_notification_history st) recipient false letters
                   = (O, clear_notification_history st))
      by (unfold send_notifications; rewrite Hr, Hv, Hm; now destruct analyzed).
    rewrite Hres in B. cbn [snd sent_notifications clear_notification_history] in B.
    rewrite <- B. split; [intros []|].
    intros [o [Ho [Hq _]]].
    assert (Hin : In o (matched_offers min analyzed))
      by (apply filter_In; split; [exact Ho|now apply Qle_bool_iff]).
    rewrite Hm in Hin. destruct Hin.
  - rewrite (send_notifications_loop _ _ _ _ _ _ _ _ _ r Hr Hv Hne) in B.
    destruct (notify_loop_unforced sender_ok desc r letters Hsend k
                (matched_offers min analyzed) (clear_notification_history st) O) as [_ H2].
    rewrite B in H2. cbn [sent_notifications clear_notification_history str_mem existsb orb] in H2.
    rewrite <- str_mem_In, H2, existsb_exists. split.
    + intros [o [Ho Ek]]. apply filter_In in Ho as [Ho Hq]. apply String.eqb_eq in Ek.
      exists o. split; [exact Ho|split; [now apply Qle_bool_iff|exact Ek]].
    + intros [o [Ho [Hq Ek]]]. exists o. split.
      * apply filter_In. split; [exact Ho|now apply Qle_bool_iff].
      * now apply String.eqb_eq.
Qed.

Lemma clear_then_send_each_key_once_witness :
  (forall a b c : string, (fun _ _ _ => true) a b c = true)
  /\ resolve_recipient None (Some "alice@example.com") = Some "alice@example.com"
  /\ is_valid_email "alice@example.com" = true
  /\ exists new,
       outbox (snd (send_notifications (fun _ _ _ => true) None ao_description (7 # 10)
                      [ao_alice; ao_alice]
                      (clear_notification_history (mkNState ["Data Analyst_Acme"] []))
                      (Some "alice@example.com") false (fun _ => None)))
       = app [] new
       /\ fst (send_notifications (fun _ _ _ => true) None ao_description (7 # 10)
                 [ao_alice; ao_alice]
                 (clear_notification_history (mkNState ["Data Analyst_Acme"] []))
                 (Some "alice@example.com") false (fun _ => None)) = List.length new
       /\ NoDup (map fst new)
       /\ forall k, In k (map fst new) <->
            exists o, In o [ao_alice; ao_alice] /\ 7 # 10 <= ao_match_score o /\ offer_key o = k.
Proof.
  split; [intros; reflexivity|split; [reflexivity|split; [vm_compute; reflexivity|]]].
  exact (clear_then_send_each_key_once (fun _ _ _ => true) None ao_description (7 # 10)
           [ao_alice; ao_alice] (mkNState ["Data Analyst_Acme"] [])
           (Some "alice@example.com") (fun _ => None) "alice@example.com"
           (fun _ _ _ => eq_refl) eq_refl eq_refl).
Defined.

(** ** The collaborator loop and the scheduler's new-offer filter *)

Lemma notify_collaborators_trace_ext sender_ok env desc prefs analyzed letters cvs rs :
  exists more,
    rs_trace (notify_collaborators sender_ok env desc prefs analyzed letters cvs rs)
    = app (rs_trace rs) more.
Proof.
  revert rs. induction cvs as [|cv rest IH]; intro rs; simpl.
  - exists []. now rewrite app_nil_r.
  - destruct (String.eqb (cv_email cv) ""); [apply IH|].
    destruct (send_notifications _ _ _ _ _ _ _ _ _) as [sent st].
    match goal with |- context [notify_collaborators _ _ _ _ _ _ rest ?r1] =>
      destruct (IH r1) as [more Hm] end.
    rewrite Hm. cbn [rs_trace]. eexists. now rewrite <- app_assoc.
Qed.

Lemma notify_loop_all_sent sender_ok desc r letters offers st c :
  (forall a b c, sender_ok a b c = true) ->
  fst (notify_loop sender_ok desc r true letters offers st c) = (c + List.length offers)%nat.
Proof.
  intro Hs. revert st c. induction offers as [|o rest IH]; intros st c; simpl; [lia|].
  rewrite andb_false_r, Hs, IH. lia.
Qed.

Lemma send_notifications_forced_count sender_ok env desc min analyzed st email letters :
  (forall a b c, sender_ok a b c = true) -> String.eqb email "" = false ->
  fst (send_notifications sender_ok env desc min analyzed st (Some email) true letters)
  = if is_valid_email email then List.length (matched_offers min analyzed) else O.
Proof.
  intros Hs He.
  assert (Hr : resolve_recipient env (Some email) = Some email)
    by (unfold resolve_recipient; now rewrite He).
  destruct (is_valid_email email) eqn:Hv.
  - assert (Hcase : matched_offers min analyzed = [] \/ matched_offers min analyzed <> [])
      by (destruct (matched_offers min analyzed); [left|right]; congruence).
    destruct Hcase as [Hm|Hne].
    + unfold send_notifications. rewrite Hr, Hv, Hm. now destruct analyzed.
    + rewrite (send_notifications_loop _ _ _ _ _ _ _ _ _ email Hr Hv Hne).
      now rewrite notify_loop_all_sent.
  - unfold send_notifications. rewrite Hr, Hv. now destruct analyzed.
Qed.

(** The collaborator loop of [run_once]: the threshold set from a
    preference is kept on the shared agent, so a collaborator that no
    preference matches is served with the threshold of the collaborator
    before, not with the agent's initial one. *)
Theorem notify_collaborators_threshold_carries sender_ok env desc prefs analyzed letters
    c1 c2 rest rs p m
    (He1 : cv_email c1 <> "") (He2 : cv_email c2 <> "")
    (Hp1 : find (pref_matches (cv_email c1) (cv_name c1)) prefs = Some p)
    (Hm : pf_min_match_score p = Some m)
    (Hp2 : find (pref_matches (cv_email c2) (cv_name c2)) prefs = None) :
  exists s1 s2 more,
    rs_trace (notify_collaborators sender_ok env desc prefs analyzed letters (c1 :: c2 :: rest) rs)
    = app (rs_trace rs) ((cv_email c1, m / 100, s1) :: (cv_email c2, m / 100, s2) :: more).
Proof.
  assert (A1 : apply_pref prefs (rs_min_match_score rs) (cv_email c1) (cv_name c1) = m / 100)
    by (unfold apply_pref; now rewrite Hp1, Hm).
  assert (A2 : forall x, apply_pref prefs x (cv_email c2) (cv_name c2) = x)
    by (intro x; unfold apply_pref; now rewrite Hp2).
  cbn [notify_collaborators].
  rewrite (proj2 (String.eqb_neq _ _) He1), A1.
  destruct (send_notifications _ _ _ (m / 100) _ _ _ _ _) as [s1 st1].
  cbn [rs_min_match_score rs_trace].
  rewrite (proj2 (String.eqb_neq _ _) He2), A2.
  destruct (send_notifications _ _ _ (m / 100) _ _ _ _ _) as [s2 st2].
  match goal with |- context [notify_collaborators _ _ _ _ _ _ rest ?r1] =>
    destruct (notify_collaborators_trace_ext sender_ok env desc prefs analyzed letters rest r1)
      as [more Hmore] end.
  rewrite Hmore. cbn [rs_trace]. exists s1, s2, more. now rewrite <- !app_assoc.
Qed.

(** With [force=True] and a sender that accepts everything, every
    collaborator with an e-mail address gets one e-mail per offer at or
    above the threshold in force (the same offers again for each
    collaborator), or none when the address fails [_is_valid_email];
    [total_sent] grows by the sum of these numbers. *)
Theorem notify_collaborators_forced_counts sender_ok env desc prefs analyzed letters cvs rs
    (Hsend : forall a b c, sender_ok a b c = true) :
  let res := notify_collaborators sender_ok env desc prefs analyzed letters cvs rs in
  exists new,
    rs_trace res = app (rs_trace rs) new
    /\ rs_total_sent res = (rs_total_sent rs + fold_right Nat.add O (map snd new))%nat
    /\ forall e m s, In (e, m, s) new ->
         e <> "" /\ s = if is_valid_email e then List.length (matched_offers m analyzed) else O.
Proof.
  cbv zeta. revert rs. induction cvs as [|cv rest IH]; intro rs; cbn [notify_collaborators].
  - exists []. rewrite app_nil_r. split; [reflexivity|split; [simpl; lia|intros e m s []]].
  - destruct (String.eqb (cv_email cv) "") eqn:He; [apply IH|].
    pose proof (send_notifications_forced_count sender_ok env desc
      (apply_pref prefs (rs_min_match_score rs) (cv_email cv) (cv_name cv)) analyzed
      (rs_agent rs) (cv_email cv) letters Hsend He) as Hc.
    destruct (send_notifications _ _ _ _ _ _ _ _ _) as [sent st]. cbn [fst] in Hc.
    match goal with |- context [notify_collaborators _ _ _ _ _ _ rest ?r1] =>
      destruct (IH r1) as [new [A [B C]]] end.
    cbn [rs_trace rs_total_sent] in A, B.
    exists ((cv_email cv, apply_pref prefs (rs_min_match_score rs) (cv_email cv) (cv_name cv),
             sent) :: new).
    split; [rewrite A, <- app_assoc; reflexivity|split; [rewrite B; simpl; lia|]].
    intros e m s [Heq|Hin].
    + injection Heq as <- <- <-. split; [now apply String.eqb_neq|exact Hc].
    + exact (C e m s Hin).
Qed.

Lemma select_new_offers_none offers seen :
  (forall o, In o offers -> offer_id o <> "" -> In (offer_id o) seen) ->
  select_new_offers offers seen = ([], seen).
Proof.
  revert seen. induction offers as [|o rest IH]; intros seen H; simpl; [reflexivity|].
  destruct (String.eqb (offer_id o) "") eqn:E; simpl.
  - apply IH. intros o' Ho'. apply H. now right.
  - assert (Hm : str_mem (offer_id o) seen = true).
    { apply str_mem_In, H; [now left|now apply String.eqb_neq]. }
    rewrite Hm. simpl. apply IH. intros o' Ho'. apply H. now right.
Qed.

(** The scheduler's new-offer filter: the new offers are offers of the
    batch whose id ([url], else [title]) is non-empty and was not seen,
    with pairwise distinct ids; the seen set grows by exactly their ids
    and then holds the id of every offer of the batch that has one, so
    the same batch run again yields no new offer. *)
Theorem select_new_offers_fresh offers seen :
  let nw := fst (select_new_offers offers seen) in
  let seen' := snd (select_new_offers offers seen) in
  seen' = app seen (map offer_id nw)
  /\ NoDup (map offer_id nw)
  /\ (forall o, In o nw -> In o offers /\ offer_id o <> "" /\ ~ In (offer_id o) seen)
  /\ (forall o, In o offers -> offer_id o <> "" -> In (offer_id o) seen')
  /\ fst (select_new_offers offers seen') = [].
Proof.
  cbv zeta.
  assert (Hgen : forall seen,
    snd (select_new_offers offers seen) = app seen (map offer_id (fst (select_new_offers offers seen)))
    /\ NoDup (map offer_id (fst (select_new_offers offers seen)))
    /\ (forall o, In o (fst (select_new_offers offers seen)) ->
          In o offers /\ offer_id o <> "" /\ ~ In (offer_id o) seen)
    /\ (forall o, In o offers -> offer_id o <> "" ->
          In (offer_id o) (snd (select_new_offers offers seen)))).
  { induction offers as [|o rest IH]; intro sn; simpl.
    - rewrite app_nil_r. split; [reflexivity|split; [constructor|split; [intros o []|intros o []]]].
    - destruct (negb (String.eqb (offer_id o) "") && negb (str_mem (offer_id o) sn)) eqn:Enew.
      + apply andb_true_iff in Enew as [E1 E2]. apply negb_true_iff in E1, E2.
        destruct (IH (app sn [offer_id o])) as [A [B [C D]]].
        destruct (select_new_offers rest (app sn [offer_id o])) as [nw sn'] eqn:Es.
        cbn [fst snd] in *. split; [|split; [|split]].
        * rewrite A, <- app_assoc. reflexivity.
        * cbn [map]. constructor; [|exact B].
          intro Hin. apply in_map_iff in Hin as [o' [Eo Ho']].
          destruct (C o' Ho') as [_ [_ Hn]]. apply Hn. rewrite Eo. apply in_or_app. right. now left.
        * intros o' [<-|Ho'].
          -- split; [now left|split; [now apply String.eqb_neq|]].
             intro Hin. apply str_mem_In in Hin. congruence.
          -- destruct (C o' Ho') as [Hi [Hne Hn]]. split; [now right|split; [exact Hne|]].
             intro Hin. apply Hn. apply in_or_app. now left.
        * intros o' [<-|Ho'] Hne.
          -- rewrite A. apply in_or_app. left. apply in_or_app. right. now left.
          -- now apply D.
      + destruct (IH sn) as [A [B [C D]]].
        split; [exact A|split; [exact B|split]].
        * intros o' Ho'. destruct (C o' Ho') as [Hi Hn]. split; [now right|exact Hn].
        * intros o' [<-|Ho'] Hne; [|now apply D].
          rewrite A. apply in_or_app. left.
          apply andb_false_iff in Enew as [E|E]; apply negb_false_iff in E.
          -- apply String.eqb_eq in E. contradiction.
          -- now apply str_mem_In. }
  destruct (Hgen seen) as [A [B [C D]]].
  split; [exact A|split; [exact B|split; [exact C|split; [exact D|]]]].
  rewrite select_new_offers_none; [reflexivity|exact D].
Qed.

Lemma notify_collaborators_threshold_carries_witness :
  cv_email cv_alice <> "" /\ cv_email cv_bob <> ""
  /\ find (pref_matches (cv_email cv_alice) (cv_name cv_alice)) prefs_alice
     = Some (mkPref (Some "alice@example.com") None (Some 80))
  /\ pf_min_match_score (mkPref (Some "alice@example.com") None (Some 80)) = Some 80
  /\ find (pref_matches (cv_email cv_bob) (cv_name cv_bob)) prefs_alice = None
  /\ exists s1 s2 more,
       rs_trace (notify_collaborators (fun _ _ _ => true) None ao_description prefs_alice
                   [ao_alice] (fun _ => None) [cv_alice; cv_bob]
                   (mkRun (7 # 10) (mkNState [] []) O [] []))
       = app [] ((cv_email cv_alice, 80 / 100, s1) :: (cv_email cv_bob, 80 / 100, s2) :: more).
Proof.
  assert (H1 : cv_email cv_alice <> "") by discriminate.
  assert (H2 : cv_email cv_bob <> "") by discriminate.
  assert (H3 : find (pref_matches (cv_email cv_alice) (cv_name cv_alice)) prefs_alice
               = Some (mkPref (Some "alice@example.com") None (Some 80)))
    by (vm_compute; reflexivity).
  assert (H4 : find (pref_matches (cv_email cv_bob) (cv_name cv_bob)) prefs_alice = None)
    by (vm_compute; reflexivity).
  split; [exact H1|split; [exact H2|split; [exact H3|split; [reflexivity|split; [exact H4|]]]]].
  exact (notify_collaborators_threshold_carries (fun _ _ _ => true) None ao_description
           prefs_alice [ao_alice] (fun _ => None) cv_alice cv_bob []
           (mkRun (7 # 10) (mkNState [] []) O [] [])
           (mkPref (Some "alice@example.com") None (Some 80)) 80
           H1 H2 H3 eq_refl H4).
Defined.

Lemma notify_collaborators_forced_counts_witness :
  (forall a b c : string, (fun _ _ _ => true) a b c = true)
  /\ exists new,
       rs_trace (notify_collaborators (fun _ _ _ => true) None ao_description prefs_alice
                   [ao_alice] (fun _ => None) [cv_alice; cv_bob]
                   (mkRun (7 # 10) (mkNState [] []) O [] []))
       = app [] new
       /\ rs_total_sent (notify_collaborators (fun _ _ _ => true) None ao_description prefs_alice
                   [ao_alice] (fun _ => None) [cv_alice; cv_bob]
                   (mkRun (7 # 10) (mkNState [] []) O [] []))
          = (O + fold_right Nat.add O (map snd new))%nat
       /\ forall e m s, In (e, m, s) new ->
            e <> "" /\ s = if is_valid_email e then List.length (matched_offers m [ao_alice]) else O.
Proof.
  split; [intros; reflexivity|].
  exact (notify_collaborators_forced_counts (fun _ _ _ => true) None ao_description prefs_alice
           [ao_alice] (fun _ => None) [cv_alice; cv_bob]
           (mkRun (7 # 10) (mkNState [] []) O [] []) (fun _ _ _ => eq_refl)).
Defined.

(** ** The rate limiter's deque *)

Lemma prune_suffix now tw ts : exists pre, ts = app pre (prune now tw ts).
Proof.
  induction ts as [|t ts IH]; simpl; [now exists []|].
  destruct (Qltb t (now - tw)).
  - destruct IH as [pre Hp]. exists (t :: pre). simpl. now rewrite <- Hp.
  - now exists [].
Qed.

Lemma StronglySorted_app_inv_r {A} (R : A -> A -> Prop) l1 l2 :
  StronglySorted R (app l1 l2) -> StronglySorted R l2.
Proof.
  induction l1 as [|a l1 IH]; simpl; [trivial|]. intro H.
  apply StronglySorted_inv in H as [H _]. now apply IH.
Qed.

Lemma StronglySorted_snoc (l : list Q) (x : Q) :
  StronglySorted Qle l -> Forall (fun y => y <= x) l -> StronglySorted Qle (app l [x]).
Proof.
  induction l as [|a l IH]; simpl; intros Hs Hf.
  - repeat constructor.
  - apply StronglySorted_inv in Hs as [Hs Ha]. inversion Hf as [|? ? Hax Hf']; subst.
    constructor; [now apply IH|]. apply Forall_app. split; [exact Ha|now constructor].
Qed.

Lemma prune_window (l : list Q) (m t tw : Q) :
  0 <= tw -> m <= t ->
  StronglySorted Qle l -> Forall (fun x => x <= m) l ->
  StronglySorted Qle (app (prune t tw l) [t])
  /\ Forall (fun x => t - tw <= x /\ x <= t) (app (prune t tw l) [t]).
Proof.
  intros Htw Hmt Hs Hf.
  destruct (prune_suffix t tw l) as [pre Hpre].
  rewrite Hpre in Hs, Hf. apply StronglySorted_app_inv_r in Hs.
  apply Forall_app in Hf as [_ Hf].
  split.
  - apply StronglySorted_snoc; [exact Hs|]. eapply Forall_impl; [|exact Hf].
    intros x Hx. cbv beta in Hx. lra.
  - apply Forall_app. split; [|constructor; [split; lra|constructor]].
    destruct (prune t tw l) as [|h rest] eqn:Ep; [constructor|].
    pose proof (prune_head t tw l h rest Ep) as Hh.
    apply StronglySorted_inv in Hs as [_ Hr].
    inversion Hf as [|? ? Hhm Hf']; subst.
    constructor; [split; lra|].
    rewrite Forall_forall in Hr, Hf' |- *. intros x Hx.
    specialize (Hr x Hx). specialize (Hf' x Hx). cbv beta in *. split; lra.
Qed.


(** [RateLimiter.__enter__] keeps its deque sorted and inside the
    window: if the deque is sorted with every timestamp at most [now],
    [time_window >= 0], [max_requests >= 1] and the clock does not go
    back, the call returns, and its new deque is sorted, ends with the
    time [t] it records ([now], or the clock after the sleep) and lies
    within [[t - time_window, t]]; a sleep, when there is one, is longer
    than [0] and at most [time_window]. *)
Theorem rl_enter_window max_requests tw ts now now_after
    (Htw : 0 <= tw) (Hmax : (1 <= max_requests)%nat)
    (Hs : StronglySorted Qle ts) (Hnow : Forall (fun x => x <= now) ts)
    (Hclock : now <= now_after) :
  exists w ts' t,
    rl_enter max_requests tw ts now now_after = Some (w, ts')
    /\ (t = now \/ t = now_after)
    /\ (exists pre, ts' = app pre [t])
    /\ StronglySorted Qle ts'
    /\ Forall (fun x => t - tw <= x /\ x <= t) ts'
    /\ (forall d, w = Some d -> 0 < d /\ d <= tw).
Proof.
  unfold rl_enter.
  destruct (prune_suffix now tw ts) as [pre0 Hpre0].
  assert (Hs1 : StronglySorted Qle (prune now tw ts))
    by (rewrite Hpre0 in Hs; now apply StronglySorted_app_inv_r in Hs).
  assert (Hf1 : Forall (fun x => x <= now) (prune now tw ts))
    by (rewrite Hpre0 in Hnow; now apply Forall_app in Hnow as [_ ?]).
  assert (Hno : exists ts', Some (@None Q, app (prune now tw ts) [now]) = Some (None, ts')
            /\ (now = now \/ now = now_after) /\ (exists pre, ts' = app pre [now])
            /\ StronglySorted Qle ts' /\ Forall (fun x => now - tw <= x /\ x <= now) ts'
            /\ (forall d, @None Q = Some d -> 0 < d /\ d <= tw)).
  { destruct (prune_window ts now now tw Htw (Qle_refl now) Hs Hnow) as [A B].
    eexists. split; [reflexivity|split; [now left|split; [eexists; reflexivity|]]].
    split; [exact A|split; [exact B|discriminate]]. }
  destruct (max_requests <=? List.length (prune now tw ts))%nat eqn:E;
    [|destruct Hno as [ts' H]; exists None, ts', now; exact H].
  destruct (prune now tw ts) as [|oldest rest] eqn:Ep.
  - apply Nat.leb_le in E. simpl in E. lia.
  - destruct (Qltb 0 (oldest + tw - now)) eqn:Ew;
      [|destruct Hno as [ts' H]; exists None, ts', now; exact H].
    apply Qltb_true in Ew.
    destruct (prune_window (oldest :: rest) now now_after tw Htw Hclock Hs1 Hf1) as [A B].
    exists (Some (oldest + tw - now)), (app (prune now_after tw (oldest :: rest)) [now_after]),
           now_after.
    split; [reflexivity|split; [now right|split; [eexists; reflexivity|]]].
    split; [exact A|split; [exact B|]].
    intros d Hd. injection Hd as <-. inversion Hf1; subst. split; lra.
Qed.

Lemma rl_enter_window_witness :
  0 <= 1 /\ (1 <= 2)%nat /\ StronglySorted Qle [0; 1 # 2] /\ Forall (fun x => x <= 1) [0; 1 # 2]
  /\ 1 <= 3 # 2
  /\ exists w ts' t,
       rl_enter 2 1 [0; 1 # 2] 1 (3 # 2) = Some (w, ts')
       /\ (t = 1 \/ t = 3 # 2)
       /\ (exists pre, ts' = app pre [t])
       /\ StronglySorted Qle ts'
       /\ Forall (fun x => t - 1 <= x /\ x <= t) ts'
       /\ (forall d, w = Some d -> 0 < d /\ d <= 1).
Proof.
  assert (H1 : 0 <= 1) by (vm_compute; discriminate).
  assert (H2 : (1 <= 2)%nat) by lia.
  assert (H3 : StronglySorted Qle [0; 1 # 2]).
  { repeat constructor; vm_compute; discriminate. }
  assert (H4 : Forall (fun x => x <= 1) [0; 1 # 2]).
  { repeat constructor; vm_compute; discriminate. }
  assert (H5 : 1 <= 3 # 2) by (vm_compute; discriminate).
  split; [exact H1|split; [exact H2|split; [exact H3|split; [exact H4|split; [exact H5|]]]]].
  exact (rl_enter_window 2 1 [0; 1 # 2] 1 (3 # 2) H1 H2 H3 H4 H5).
Defined.

Lemma prune_keep now tw t0 rest :
  t0 == now - tw -> prune now tw (t0 :: rest) = t0 :: rest.
Proof.
  intro H. simpl. replace (Qltb t0 (now - tw)) with false; [reflexivity|].
  symmetry. unfold Qltb. apply negb_false_iff, Qle_bool_iff. rewrite H. apply Qle_refl.
Qed.

(** At the boundary of the window the limiter does not limit: when the
    oldest timestamp left after pruning is exactly [now - time_window],
    [wait_time] is [0], so any number of acquisitions at that instant
    all proceed without sleeping and the deque grows past [max_requests]. *)
Lemma rl_enter_boundary max_requests tw ts now after t0 m :
  prune now tw ts = t0 :: m -> t0 == now - tw ->
  rl_enter max_requests tw ts now after = Some (None, app (t0 :: m) [now]).
Proof.
  intros H1 Hb. unfold rl_enter. rewrite H1.
  assert (Hw : Qltb 0 (t0 + tw - now) = false).
  { unfold Qltb. apply negb_false_iff, Qle_bool_iff. rewrite Hb. ring_simplify.
    apply Qle_refl. }
  rewrite Hw. now destruct (max_requests <=? _)%nat.
Qed.

(** At the boundary of the window the limiter does not limit: when the
    oldest timestamp left after pruning is exactly [now - time_window],
    [wait_time] is [0], so any number of acquisitions at that instant
    all proceed without sleeping and the deque grows past [max_requests]. *)
Theorem rl_burst_boundary_unlimited n max_requests tw ts now after t0 rest
    (Hp : prune now tw ts = t0 :: rest) (Hb : t0 == now - tw) :
  rl_burst (S n) max_requests tw ts now after
  = Some (repeat None (S n), app (t0 :: rest) (repeat now (S n))).
Proof.
  revert ts rest Hp. induction n as [|n IH]; intros ts rest Hp.
  - cbn [rl_burst]. rewrite (rl_enter_boundary _ _ _ _ _ _ _ Hp Hb). reflexivity.
  - cbn [rl_burst]. rewrite (rl_enter_boundary _ _ _ _ _ _ _ Hp Hb).
    assert (Hp2 : prune now tw (app (t0 :: rest) [now]) = t0 :: app rest [now])
      by (apply prune_keep; exact Hb).
    specialize (IH (app (t0 :: rest) [now]) (app rest [now]) Hp2).
    cbn [rl_burst] in IH. rewrite IH.
    cbn [repeat]. simpl app. rewrite <- app_assoc. reflexivity.
Qed.

Lemma rl_burst_boundary_unlimited_witness :
  prune 1 1 [0; 1 # 2] = [0; 1 # 2] /\ 0 == 1 - 1
  /\ rl_burst 5 2 1 [0; 1 # 2] 1 (3 # 2)
     = Some (repeat None 5, app [0; 1 # 2] (repeat 1 5)).
Proof.
  assert (H1 : prune 1 1 [0; 1 # 2] = [0; 1 # 2]) by (vm_compute; reflexivity).
  assert (H2 : 0 == 1 - 1) by (vm_compute; reflexivity).
  split; [exact H1|split; [exact H2|]].
  exact (rl_burst_boundary_unlimited 4 2 1 [0; 1 # 2] 1 (3 # 2) 0 [1 # 2] H1 H2).
Defined.

(** ** The e-mail pattern *)

Lemma split_first_some c l p q : split_first c l = Some (p, q) -> l = app p (c :: q).
Proof.
  revert p q. induction l as [|x l IH]; intros p q; simpl; [discriminate|].
  destruct (Ascii.eqb x c) eqn:E.
  - intro H. injection H as <- <-. apply Ascii.eqb_eq in E. now subst.
  - destruct (split_first c l) as [[p' q']|] eqn:Es; [|discriminate].
    intro H. injection H as <- <-. simpl. f_equal. now apply IH.
Qed.

Lemma split_first_app c p q :
  forallb (fun x => negb (Ascii.eqb x c)) p = true ->
  split_first c (app p (c :: q)) = Some (p, q).
Proof.
  induction p as [|x p IH]; simpl; intro H.
  - now rewrite Ascii.eqb_refl.
  - apply andb_true_iff in H as [Hx Hp]. apply negb_true_iff in Hx. rewrite Hx, IH by exact Hp.
    reflexivity.
Qed.

Lemma forallb_excludes (f : ascii -> bool) (c : ascii) (l : list ascii) :
  f c = false -> forallb f l = true -> forallb (fun x => negb (Ascii.eqb x c)) l = true.
Proof.
  intros Hc Hl. rewrite forallb_forall in *. intros x Hx. apply negb_true_iff.
  destruct (Ascii.eqb x c) eqn:E; [|reflexivity].
  apply Ascii.eqb_eq in E. subst. rewrite Hl in Hc by exact Hx. discriminate.
Qed.

Lemma forallb_rev {A} (f : A -> bool) (l : list A) : forallb f (rev l) = forallb f l.
Proof.
  destruct (forallb f l) eqn:E.
  - rewrite forallb_forall in *. intros x Hx. apply E. now apply in_rev.
  - destruct (forallb f (rev l)) eqn:E'; [|reflexivity]. rewrite <- E.
    symmetry. rewrite forallb_forall in *. intros x Hx. apply E'. now apply in_rev in Hx.
Qed.

Lemma email_full_match_iff (l : list ascii) :
  email_full_match l = true <->
  exists local domain tld,
    l = app local ("@"%char :: app domain ("."%char :: tld))
    /\ local <> [] /\ domain <> []
    /\ forallb local_char local = true /\ forallb domain_char domain = true
    /\ (2 <= List.length tld)%nat /\ forallb is_alpha tld = true.
Proof.
  unfold email_full_match. split.
  - destruct (split_first "@"%char l) as [[lp rest]|] eqn:E1; [|discriminate].
    destruct (split_first "."%char (rev rest)) as [[tr dr]|] eqn:E2; [|rewrite andb_false_r; discriminate].
    apply split_first_some in E1, E2.
    intro H. repeat rewrite andb_true_iff in H.
    destruct H as [[[H1 H2] H3] [[H4 H5] H6]].
    assert (Hrest : rest = app (rev dr) ("."%char :: rev tr)).
    { rewrite <- (rev_involutive rest), E2, rev_app_distr. simpl. now rewrite <- app_assoc. }
    exists lp, (rev dr), (rev tr). subst l. rewrite Hrest. split; [reflexivity|].
    split; [intro Hn; rewrite Hn in H1; discriminate|].
    split; [intro Hn; apply (f_equal (@rev ascii)) in Hn; rewrite rev_involutive in Hn;
            subst dr; discriminate|].
    split; [exact H2|]. rewrite Hrest, forallb_app in H3. apply andb_true_iff in H3 as [H3 _].
    split; [exact H3|]. rewrite length_rev, forallb_rev.
    split; [now apply Nat.leb_le|exact H5].
  - intros [local [domain [tld [-> [Hl [Hd [Hlc [Hdc [Ht Hta]]]]]]]]].
    rewrite split_first_app by (apply (forallb_excludes local_char); [reflexivity|exact Hlc]).
    rewrite rev_app_distr. simpl rev. rewrite <- app_assoc. simpl app.
    rewrite split_first_app
      by (rewrite forallb_rev; apply (forallb_excludes is_alpha); [reflexivity|exact Hta]).
    apply andb_true_iff. split; [apply andb_true_iff; split; [apply andb_true_iff; split|]|].
    + destruct local; [contradiction|reflexivity].
    + exact Hlc.
    + rewrite forallb_app. simpl. rewrite Hdc. simpl.
      apply forallb_forall. intros x Hx. rewrite forallb_forall in Hta.
      unfold domain_char. now rewrite (Hta x Hx).
    + rewrite length_rev, forallb_rev, Hta. apply andb_true_iff. split.
      * apply andb_true_iff. split; [now apply Nat.leb_le|reflexivity].
      * destruct domain; [contradiction|]. simpl. rewrite length_app. simpl.
        apply negb_true_iff, Nat.eqb_neq. lia.
Qed.

(** [_is_valid_email] accepts exactly the strings of the shape of its
    pattern [local@domain.tld]: a non-empty local part of letters, digits
    and [._%+-], a non-empty domain of letters, digits, [.] and [-], a
    last label of at least two letters; because [$] also matches before a
    final newline, the same string followed by one newline is accepted
    too.  Such a string has exactly one ['@'] and no space. *)
Theorem is_valid_email_iff (e : string) :
  is_valid_email e = true <->
  exists local domain tld trail,
    list_ascii_of_string e = app local ("@"%char :: app domain ("."%char :: app tld trail))
    /\ (trail = [] \/ trail = [ascii_of_nat 10])
    /\ local <> [] /\ domain <> []
    /\ forallb local_char local = true /\ forallb domain_char domain = true
    /\ (2 <= List.length tld)%nat /\ forallb is_alpha tld = true.
Proof.
  unfold is_valid_email. split.
  - intro H. apply orb_true_iff in H as [H|H].
    + apply email_full_match_iff in H as [local [domain [tld [Hl Hrest]]]].
      exists local, domain, tld, []. rewrite app_nil_r. split; [exact Hl|split; [now left|exact Hrest]].
    + destruct (rev (list_ascii_of_string e)) as [|c rl] eqn:Er; [discriminate|].
      apply andb_true_iff in H as [Hc H]. apply Ascii.eqb_eq in Hc. subst c.
      apply email_full_match_iff in H as [local [domain [tld [Hl Hrest]]]].
      exists local, domain, tld, [ascii_of_nat 10].
      split; [|split; [now right|exact Hrest]].
      rewrite <- (rev_involutive (list_ascii_of_string e)), Er. simpl rev. rewrite Hl.
      now rewrite <- !app_assoc, <- !app_comm_cons, <- !app_assoc.
  - intros [local [domain [tld [trail [Hl [Ht Hrest]]]]]].
    destruct Ht as [Ht|Ht]; subst trail.
    + rewrite app_nil_r in Hl. apply orb_true_iff. left. apply email_full_match_iff.
      exists local, domain, tld. now split.
    + apply orb_true_iff. right.
      assert (Hr : rev (list_ascii_of_string e)
                   = ascii_of_nat 10 :: rev (app local ("@"%char :: app domain ("."%char :: tld)))).
      { rewrite Hl. rewrite !app_comm_cons, !app_assoc. rewrite rev_app_distr. reflexivity. }
      rewrite Hr, rev_involutive. apply andb_true_iff. split; [reflexivity|].
      apply email_full_match_iff. exists local, domain, tld. now split.
Qed.

(** ** The entries of [matched_skills] *)

Lemma fuzzy_best_max_gen ratio r cvs bs b y :
  fuzzy_best ratio r cvs bs b = Some y ->
  (b = Some y /\ forall c, In c cvs -> ~ (bs < ratio r c /\ 7 # 10 <= ratio r c))
  \/ (In y cvs /\ 7 # 10 <= ratio r y /\ bs < ratio r y
      /\ forall c, In c cvs -> ~ (ratio r y < ratio r c /\ 7 # 10 <= ratio r c)).
Proof.
  revert bs b. induction cvs as [|c rest IH]; intros bs b H; simpl in *.
  - left. split; [exact H|intros c []].
  - destruct (Qltb bs (ratio r c) && Qle_bool (7 # 10) (ratio r c)) eqn:E.
    + apply andb_true_iff in E as [E1 E2]. apply Qltb_true in E1. apply Qle_bool_iff in E2.
      right. destruct (IH _ _ H) as [[Hy Hr]|[Hin [H7 [Hlt Hr]]]].
      * injection Hy as <-. split; [now left|split; [exact E2|split; [exact E1|]]].
        intros c' [<-|Hc'] [Hc1 Hc2]; [lra|]. apply (Hr c' Hc'). split; assumption.
      * split; [now right|split; [exact H7|split; [lra|]]].
        intros c' [<-|Hc'] [Hc1 Hc2]; [lra|]. apply (Hr c' Hc'). split; assumption.
    + assert (Hc : ~ (bs < ratio r c /\ 7 # 10 <= ratio r c)).
      { intros [Hc1 Hc2]. apply Qltb_intro in Hc1. apply Qle_bool_iff in Hc2.
        rewrite Hc1, Hc2 in E. discriminate. }
      destruct (IH _ _ H) as [[Hy Hr]|[Hin [H7 [Hlt Hr]]]].
      * left. split; [exact Hy|]. intros c' [<-|Hc']; [exact Hc|exact (Hr c' Hc')].
      * right. split; [now right|split; [exact H7|split; [exact Hlt|]]].
        intros c' [<-|Hc'] [Hc1 Hc2]; [apply Hc; split; [lra|exact Hc2]|].
        apply (Hr c' Hc'). split; assumption.
Qed.

Lemma fuzzy_best_max ratio r cvs y :
  fuzzy_best ratio r cvs 0 None = Some y ->
  In y cvs /\ 7 # 10 <= ratio r y /\ forall c, In c cvs -> ratio r c <= ratio r y.
Proof.
  intro H. destruct (fuzzy_best_max_gen _ _ _ _ _ _ H) as [[Hy _]|[Hin [H7 [_ Hr]]]];
    [discriminate|].
  split; [exact Hin|split; [exact H7|]]. intros c Hc.
  destruct (Qlt_le_dec (ratio r y) (ratio r c)) as [Hlt|Hle]; [|exact Hle].
  exfalso. apply (Hr c Hc). split; [exact Hlt|lra].
Qed.

Lemma match_loop_entries ratio cvs reqs :
  let '(m, k) := match_loop ratio cvs reqs in
  List.length m = k
  /\ (forall x, In x m -> exists r, In r reqs /\
        ((x = r /\ In r cvs)
         \/ exists c, x = (r ++ " (similar: " ++ c ++ ")")%string /\ ~ In r cvs /\ In c cvs
              /\ c <> "" /\ 7 # 10 <= ratio r c
              /\ forall c', In c' cvs -> ratio r c' <= ratio r c))
  /\ (forall r, In r reqs -> In r cvs -> In r m).
Proof.
  induction reqs as [|r rs IH]; simpl.
  - split; [reflexivity|split; [intros x []|intros r []]].
  - destruct (match_loop ratio cvs rs) as [m k] eqn:Hml.
    destruct IH as [Hlen [Hent Hall]].
    destruct (str_mem r cvs) eqn:Hmem.
    + split; [simpl; lia|split].
      * intros x [Hx|Hx].
        -- subst x. exists r. split; [now left|left; split; [reflexivity|now apply str_mem_In]].
        -- destruct (Hent x Hx) as [r' [Hr' Hc]]. exists r'. split; [now right|exact Hc].
      * intros r' [<-|Hr'] Hin; [now left|right; now apply Hall].
    + assert (Hnot : ~ In r cvs) by (intro Hin; apply str_mem_In in Hin; congruence).
      assert (Hrest : forall r', r = r' \/ In r' rs -> In r' cvs -> In r' m).
      { intros r' [<-|Hr'] Hin; [contradiction|now apply Hall]. }
      assert (Hold : forall x, In x m -> exists r', (r = r' \/ In r' rs) /\
        ((x = r' /\ In r' cvs)
         \/ exists c, x = (r' ++ " (similar: " ++ c ++ ")")%string /\ ~ In r' cvs /\ In c cvs
              /\ c <> "" /\ 7 # 10 <= ratio r' c
              /\ forall c', In c' cvs -> ratio r' c' <= ratio r' c)).
      { intros x Hx. destruct (Hent x Hx) as [r' [Hr' Hc]]. exists r'. split; [now right|exact Hc]. }
      destruct (fuzzy_best ratio r cvs 0 None) as [c|] eqn:Hf; [|now split].
      destruct (String.eqb c "") eqn:Ec; [now split|].
      destruct (fuzzy_best_max _ _ _ _ Hf) as [Hc [H7 Hmax]].
      split; [simpl; lia|split; [|intros r' Hr' Hin; right; now apply Hrest]].
      intros x [Hx|Hx]; [subst x|now apply Hold].
      exists r. split; [now left|right]. exists c.
      split; [reflexivity|split; [exact Hnot|split; [exact Hc|split; [|split; [exact H7|exact Hmax]]]]].
      now apply String.eqb_neq.
Qed.

(** [_calculate_skill_match]: the score is always the number of entries
    of [matched_skills] divided by the number of required skills.  Each
    entry stands for one required skill: the skill itself when it is
    among the candidate skills, or ["<skill> (similar: <c>)"] where the
    skill is not among them and [c] is a non-empty candidate skill of
    similarity at least [0.7], the most similar one.  Every required
    skill found among the candidate skills is listed as it is. *)
Theorem calculate_skill_match_entries ratio required cvs :
  let '(m, score) := calculate_skill_match ratio required cvs in
  score == inject_Z (Z.of_nat (List.length m)) / inject_Z (Z.of_nat (List.length required))
  /\ (forall x, In x m -> exists r, In r required /\
        ((x = r /\ In r cvs)
         \/ exists c, x = (r ++ " (similar: " ++ c ++ ")")%string /\ ~ In r cvs /\ In c cvs
              /\ c <> "" /\ 7 # 10 <= ratio r c
              /\ forall c', In c' cvs -> ratio r c' <= ratio r c))
  /\ (forall r, In r required -> In r cvs -> In r m).
Proof.
  unfold calculate_skill_match.
  destruct required as [|r0 rs]; [split; [reflexivity|split; [intros x []|intros r []]]|].
  destruct cvs as [|c0 cs];
    [split; [unfold Qdiv; now rewrite Qmult_0_l|split; [intros x []|intros r _ []]]|].
  pose proof (match_loop_entries ratio (c0 :: cs) (r0 :: rs)) as H.
  destruct (match_loop ratio (c0 :: cs) (r0 :: rs)) as [m k].
  destruct H as [Hlen [Hent Hall]]. subst k.
  split; [reflexivity|split; [exact Hent|exact Hall]].
Qed.

(** ** Substrings, [str.strip] and the sections of the e-mail body *)

Lemma str_app_assoc (a b c : string) : ((a ++ b) ++ c)%string = (a ++ (b ++ c))%string.
Proof. induction a as [|x a IH]; simpl; [reflexivity|now rewrite IH]. Qed.

Lemma str_app_nil_r (a : string) : (a ++ "")%string = a.
Proof. induction a as [|x a IH]; simpl; [reflexivity|now rewrite IH]. Qed.

Lemma list_ascii_of_string_app (a b : string) :
  list_ascii_of_string (a ++ b) = app (list_ascii_of_string a) (list_ascii_of_string b).
Proof. induction a as [|x a IH]; simpl; [reflexivity|now rewrite IH]. Qed.

Lemma prefix_app (s t : string) : prefix s (s ++ t) = true.
Proof.
  induction s as [|a s IH]; simpl; [now destruct t|].
  destruct (ascii_dec a a); [exact IH|contradiction].
Qed.

Lemma prefix_true (s u : string) : prefix s u = true -> exists q, u = (s ++ q)%string.
Proof.
  revert u. induction s as [|a s IH]; intros u H; simpl.
  - now exists u.
  - destruct u as [|b u]; [discriminate|]. simpl in H.
    destruct (ascii_dec a b) as [<-|]; [|discriminate].
    destruct (IH u H) as [q ->]. now exists q.
Qed.

Lemma str_contains_iff (sub s : string) :
  str_contains sub s = true <-> exists p q, s = (p ++ sub ++ q)%string.
Proof.
  unfold str_contains. split.
  - induction s as [|b s IH]; intro H.
    + destruct sub; [|discriminate]. now exists "", "".
    + cbn [index] in H.
      destruct (prefix sub (String b s)) eqn:Ep.
      * destruct (prefix_true _ _ Ep) as [q Hq]. exists "", q. exact Hq.
      * destruct (index 0 sub s) eqn:Ei; [|discriminate].
        destruct (IH eq_refl) as [p [q ->]]. now exists (String b p), q.
  - intros [p [q ->]]. induction p as [|a p IH].
    + simpl. destruct (sub ++ q)%string as [|b s'] eqn:E.
      * destruct sub; [reflexivity|discriminate].
      * cbn [index]. rewrite <- E, prefix_app. reflexivity.
    + change ((String a p ++ sub ++ q)%string) with (String a (p ++ sub ++ q)).
      cbn [index]. destruct (prefix sub (String a (p ++ sub ++ q))); [reflexivity|].
      destruct (index 0 sub (p ++ sub ++ q)); [reflexivity|discriminate].
Qed.

Lemma str_contains_self (sub : string) : str_contains sub sub = true.
Proof. apply str_contains_iff. exists "", "". simpl. now rewrite str_app_nil_r. Qed.

Lemma str_contains_app_l (sub s t : string) :
  str_contains sub s = true -> str_contains sub (s ++ t) = true.
Proof.
  rewrite !str_contains_iff. intros [p [q ->]]. exists p, (q ++ t)%string.
  now rewrite !str_app_assoc.
Qed.

Lemma str_contains_app_r (sub s t : string) :
  str_contains sub t = true -> str_contains sub (s ++ t) = true.
Proof.
  rewrite !str_contains_iff. intros [p [q ->]]. exists (s ++ p)%string, q.
  now rewrite !str_app_assoc.
Qed.

Lemma drop_spaces_app (P R : list ascii) (c : ascii) :
  is_space c = false -> exists P', drop_spaces (app P (c :: R)) = app P' (c :: R).
Proof.
  intro Hc. induction P as [|a P IH]; simpl.
  - rewrite Hc. now exists [].
  - destruct (is_space a); [exact IH|]. now exists (a :: P).
Qed.

Lemma string_of_list_ascii_app (a b : list ascii) :
  string_of_list_ascii (app a b) = (string_of_list_ascii a ++ string_of_list_ascii b)%string.
Proof. induction a as [|x a IH]; simpl; [reflexivity|now rewrite IH]. Qed.

(** [sub in s.strip()] when [sub] occurs in [s] and neither starts nor
    ends with white space. *)
Lemma str_strip_contains (sub s : string) c m m' d :
  list_ascii_of_string sub = c :: m -> list_ascii_of_string sub = app m' [d] ->
  is_space c = false -> is_space d = false ->
  str_contains sub s = true -> str_contains sub (str_strip s) = true.
Proof.
  intros Hc Hd Hsc Hsd H. apply str_contains_iff in H as [p [q ->]].
  unfold str_strip. rewrite !list_ascii_of_string_app, Hc.
  change (app (c :: m) (list_ascii_of_string q)) with (c :: app m (list_ascii_of_string q)).
  destruct (drop_spaces_app (list_ascii_of_string p) (app m (list_ascii_of_string q)) c Hsc)
    as [P' HP]. rewrite HP.
  assert (Hrev : rev (app P' (c :: app m (list_ascii_of_string q)))
                 = app (rev (list_ascii_of_string q)) (d :: app (rev m') (rev P'))).
  { replace (c :: app m (list_ascii_of_string q))
      with (app (c :: m) (list_ascii_of_string q)) by reflexivity.
    rewrite <- Hc, Hd, !rev_app_distr. simpl. now rewrite <- !app_assoc. }
  rewrite Hrev.
  destruct (drop_spaces_app (rev (list_ascii_of_string q)) (app (rev m') (rev P')) d Hsd)
    as [Q' HQ]. rewrite HQ.
  rewrite rev_app_distr. simpl. rewrite !rev_app_distr, !rev_involutive.
  replace (app (app P' m') [d]) with (app P' (list_ascii_of_string sub))
    by (rewrite Hd; now rewrite app_assoc).
  rewrite <- app_assoc, !string_of_list_ascii_app, string_of_list_ascii_of_string.
  apply str_contains_app_r, str_contains_app_l, str_contains_self.
Qed.

Lemma congrats_line_chars :
  exists c m m' d, list_ascii_of_string congrats_line = c :: m
    /\ list_ascii_of_string congrats_line = app m' [d]
    /\ is_space c = false /\ is_space d = false.
Proof.
  set (l := list_ascii_of_string congrats_line).
  exists (hd " "%char l), (tl l), (removelast l), (last l " "%char).
  repeat split; vm_compute; reflexivity.
Qed.

Lemma missing_header_chars :
  exists c m m' d, list_ascii_of_string missing_header = c :: m
    /\ list_ascii_of_string missing_header = app m' [d]
    /\ is_space c = false /\ is_space d = false.
Proof.
  set (l := list_ascii_of_string missing_header).
  exists (hd " "%char l), (tl l), (removelast l), (last l " "%char).
  repeat split; vm_compute; reflexivity.
Qed.

Ltac contains_solve :=
  first [ apply str_contains_self
        | apply str_contains_app_l; contains_solve
        | apply str_contains_app_r; contains_solve ].

Lemma calculate_skill_match_exact_listed ratio required cvs r :
  In r required -> In r cvs -> In r (fst (calculate_skill_match ratio required cvs)).
Proof.
  intros Hr Hc. unfold calculate_skill_match.
  destruct required as [|r0 rs]; [destruct Hr|]. destruct cvs as [|c0 cs]; [destruct Hc|].
  pose proof (match_loop_entries ratio (c0 :: cs) (r0 :: rs)) as H.
  destruct (match_loop ratio (c0 :: cs) (r0 :: rs)) as [m k].
  destruct H as [_ [_ Hall]]. now apply Hall.
Qed.

(** [_build_email_body]: when no required skill is missing from
    [matched_skills], the body (after [.strip()]) contains the
    100%-match line; when some are missing, it contains the header of
    the missing-skills section.  Whatever the description and the
    motivation letter. *)
Theorem email_body_sections o desc letter :
  (missing_skills o = [] -> str_contains congrats_line (build_email_body o desc letter) = true)
  /\ (missing_skills o <> [] ->
      str_contains missing_header (build_email_body o desc letter) = true).
Proof.
  split; intro Hm; unfold build_email_body; cbv zeta.
  - destruct congrats_line_chars as [c [m [m' [d [H1 [H2 [H3 H4]]]]]]].
    apply (str_strip_contains _ _ c m m' d H1 H2 H3 H4).
    rewrite Hm. destruct letter as [l|]; [destruct (String.eqb l "")|]; contains_solve.
  - destruct missing_header_chars as [c [m [m' [d [H1 [H2 [H3 H4]]]]]]].
    apply (str_strip_contains _ _ c m m' d H1 H2 H3 H4).
    destruct (missing_skills o) as [|s ss]; [contradiction|].
    destruct letter as [l|]; [destruct (String.eqb l "")|]; contains_solve.
Qed.

(** The positive half of the 100%-match rule: when every required skill
    of an offer is, as it is, among the candidate's normalised skills,
    the analysed offer has no missing skill and the e-mail built for it
    contains the 100%-match line. *)
Theorem email_congratulates_exact_match ratio ex exr o l cv_data desc letter
    (Hall : forall r, In r (required_skills_of ex o) -> In r (map normalize_skill l)) :
  let ao := analyze_single_offer ratio ex exr o (Some l) cv_data in
  missing_skills ao = []
  /\ str_contains congrats_line (build_email_body ao desc letter) = true.
Proof.
  cbv zeta.
  assert (Hmiss : missing_skills (analyze_single_offer ratio ex exr o (Some l) cv_data) = []).
  { unfold analyze_single_offer.
    destruct (match_part ratio (required_skills_of ex o) (Some l)) as [matched score] eqn:Emp.
    destruct (ats_of cv_data o (exr o) l) as [ats best].
    unfold missing_skills. cbn [ao_matched_skills ao_required_skills].
    apply filter_all_false. intros r Hr. apply negb_false_iff, str_mem_In.
    unfold match_part in Emp. destruct l as [|x xs].
    - specialize (Hall r Hr). destruct Hall.
    - pose proof (f_equal fst Emp) as Hf. cbn [fst] in Hf. rewrite <- Hf.
      apply calculate_skill_match_exact_listed; [exact Hr|exact (Hall r Hr)]. }
  split; [exact Hmiss|].
  destruct congrats_line_chars as [c [m [m' [d [H1 [H2 [H3 H4]]]]]]].
  unfold build_email_body. cbv zeta.
  apply (str_strip_contains _ _ c m m' d H1 H2 H3 H4).
  rewrite Hmiss. destruct letter as [lt|]; [destruct (String.eqb lt "")|]; contains_solve.
Qed.

Lemma email_congratulates_exact_match_witness :
  (forall r, In r (required_skills_of (fun _ => []) offer_da)
             -> In r (map normalize_skill ["Python"; "Excel"; "SQL"]))
  /\ let ao := analyze_single_offer seq_ratio (fun _ => []) (fun _ => reqs_da) offer_da
                 (Some ["Python"; "Excel"; "SQL"]) [] in
     missing_skills ao = []
     /\ str_contains congrats_line (build_email_body ao "" None) = true.
Proof.
  assert (H : forall r, In r (required_skills_of (fun _ => []) offer_da)
                        -> In r (map normalize_skill ["Python"; "Excel"; "SQL"])).
  { intros r Hr. vm_compute in Hr. vm_compute.
    destruct Hr as [<-|[<-|[]]]; [left|right; left]; reflexivity. }
  split; [exact H|].
  exact (email_congratulates_exact_match seq_ratio (fun _ => []) (fun _ => reqs_da) offer_da
           ["Python"; "Excel"; "SQL"] [] "" None H).
Defined.

(** ** Keyword detection in offer texts *)

Lemma str_contains_trans (a b c : string) :
  str_contains a b = true -> str_contains b c = true -> str_contains a c = true.
Proof.
  rewrite !str_contains_iff. intros [p [q ->]] [p' [q' ->]].
  exists (p' ++ p)%string, (q ++ q')%string. now rewrite !str_app_assoc.
Qed.

Lemma extract_skills_In (t x : string) (pats : list string) (p : string) :
  In (x, pats) skill_patterns -> In p pats -> str_contains p (str_lower t) = true ->
  In x (extract_skills_from_text t).
Proof.
  intros Hx Hp Hc. unfold extract_skills_from_text.
  apply in_map_iff. exists (x, pats). split; [reflexivity|].
  apply filter_In. split; [exact Hx|]. apply existsb_exists. now exists p.
Qed.

Lemma skill_patterns_r sp : In sp skill_patterns -> fst sp = "r" -> sp = ("r", ["\br\b"; "\blanguage r\b"]).
Proof.
  intros H E. unfold skill_patterns in H.
  repeat (destruct H as [H|H]; [subst sp; cbn in E; (discriminate || reflexivity)|]).
  destruct H.
Qed.

Lemma extract_skills_In_inv (t x : string) :
  In x (extract_skills_from_text t) ->
  exists pats p, In (x, pats) skill_patterns /\ In p pats /\ str_contains p (str_lower t) = true.
Proof.
  unfold extract_skills_from_text. cbv zeta. intro H.
  apply in_map_iff in H as [[y pats] [E Hsp]]. cbn [fst] in E. subst y.
  apply filter_In in Hsp as [Hsp Hc]. apply existsb_exists in Hc as [p [Hp Hc]].
  exists pats, p. auto.
Qed.

Ltac in_sp := unfold skill_patterns; repeat (first [left; reflexivity | right]).

(** [_extract_skills_from_text] tests each pattern as a plain substring
    of the lower-cased text.  So the skill ["r"] is reported only when the
    text literally contains the characters [\br\b] or [\blanguage r\b]
    (the regex syntax is not interpreted), and short patterns fire inside
    other words: a text containing "javascript" or "json" is reported
    with "javascript" (pattern "js"), one containing "javascript" also with
    "java", "digital" yields "git", "html" yields "machine learning"
    (pattern "ml") and "capital" yields "api". *)
Theorem extract_skills_substring_quirks (t : string) :
  (In "r" (extract_skills_from_text t) <->
     str_contains "\br\b" (str_lower t) = true
     \/ str_contains "\blanguage r\b" (str_lower t) = true)
  /\ (str_contains "javascript" (str_lower t) = true ->
        In "java" (extract_skills_from_text t) /\ In "javascript" (extract_skills_from_text t))
  /\ (str_contains "json" (str_lower t) = true -> In "javascript" (extract_skills_from_text t))
  /\ (str_contains "digital" (str_lower t) = true -> In "git" (extract_skills_from_text t))
  /\ (str_contains "html" (str_lower t) = true ->
        In "machine learning" (extract_skills_from_text t))
  /\ (str_contains "capital" (str_lower t) = true -> In "api" (extract_skills_from_text t)).
Proof.
  assert (Hin : forall x pats p, In (x, pats) skill_patterns -> In p pats ->
                  forall w, str_contains p w = true -> str_contains w (str_lower t) = true ->
                  In x (extract_skills_from_text t)).
  { intros x pats p Hx Hp w Hpw Hw. apply (extract_skills_In t x pats p Hx Hp).
    exact (str_contains_trans _ _ _ Hpw Hw). }
  split; [|split; [|split; [|split; [|split]]]].
  - split.
    + intro H. apply extract_skills_In_inv in H as [pats [p [Hx [Hp Hc]]]].
      pose proof (skill_patterns_r _ Hx eq_refl) as E. injection E as ->.
      destruct Hp as [Hp|[Hp|[]]]; subst p; [left|right]; exact Hc.
    + intros [H|H].
      * apply (extract_skills_In t "r" ["\br\b"; "\blanguage r\b"] "\br\b");
          [in_sp|now left|exact H].
      * apply (extract_skills_In t "r" ["\br\b"; "\blanguage r\b"] "\blanguage r\b");
          [in_sp|right; now left|exact H].
  - intro H. split.
    + apply (Hin "java" ["java"] "java" ltac:(in_sp) ltac:(now left) "javascript");
        [vm_compute; reflexivity|exact H].
    + apply (Hin "javascript" ["javascript"; "js"] "javascript" ltac:(in_sp)
               ltac:(now left) "javascript"); [apply str_contains_self|exact H].
  - intro H. apply (Hin "javascript" ["javascript"; "js"] "js" ltac:(in_sp)
                      ltac:(right; now left) "json"); [vm_compute; reflexivity|exact H].
  - intro H. apply (Hin "git" ["git"; "github"; "gitlab"] "git" ltac:(in_sp)
                      ltac:(now left) "digital"); [vm_compute; reflexivity|exact H].
  - intro H. apply (Hin "machine learning"
                      ["machine learning"; "ml"; "apprentissage automatique";
                       "apprentissage machine"] "ml" ltac:(in_sp)
                      ltac:(right; now left) "html"); [vm_compute; reflexivity|exact H].
  - intro H. apply (Hin "api" ["api"; "rest api"; "restful"] "api" ltac:(in_sp)
                      ltac:(now left) "capital"); [vm_compute; reflexivity|exact H].
Qed.

(** ** Best CV of an offer *)

Lemma pick_best_first_max cvs o r fb b bc :
  let s c := score_offer c o r fb in
  (Forall (fun c => s c <= b) cvs /\ pick_best cvs o r fb b bc = (b, bc))
  \/ (exists pre cv post, cvs = app pre (cv :: post) /\ b < s cv
      /\ Forall (fun c => s c < s cv) pre /\ Forall (fun c => s c <= s cv) post
      /\ pick_best cvs o r fb b bc = (s cv, Some cv)).
Proof.
  cbv zeta. revert b bc. induction cvs as [|c rest IH]; intros b bc.
  - left. split; [constructor|reflexivity].
  - cbn [pick_best]. destruct (Qltb b (score_offer c o r fb)) eqn:Hlt.
    + apply Qltb_true in Hlt. right.
      destruct (IH (score_offer c o r fb) (Some c)) as [[Hall Hp]|[pre [cv [post [E [Hb [Hpre [Hpost Hp]]]]]]]].
      * exists [], c, rest.
        split; [reflexivity|]. split; [exact Hlt|]. split; [constructor|].
        split; [exact Hall|exact Hp].
      * exists (c :: pre), cv, post. subst rest.
        split; [reflexivity|]. split; [lra|]. split; [constructor; [exact Hb|exact Hpre]|].
        split; [exact Hpost|exact Hp].
    + apply Qltb_false in Hlt.
      destruct (IH b bc) as [[Hall Hp]|[pre [cv [post [E [Hb [Hpre [Hpost Hp]]]]]]]].
      * left. split; [constructor; assumption|exact Hp].
      * right. exists (c :: pre), cv, post. subst rest.
        split; [reflexivity|]. split; [exact Hb|]. split; [constructor; [lra|exact Hpre]|].
        split; [exact Hpost|exact Hp].
Qed.

Lemma analyze_best ratio ex exr o cvsk cv_data :
  ao_best_match_cv (analyze_single_offer ratio ex exr o cvsk cv_data)
  = snd (ats_of cv_data o (exr o) (match cvsk with Some l => l | None => [] end)).
Proof.
  unfold analyze_single_offer.
  destruct (match_part ratio _ _) as [m s].
  destruct (ats_of _ _ _ _) as [a b]. reflexivity.
Qed.

(** [_analyze_single_offer] keeps as [best_match_cv] the first CV of
    [cv_data] with the greatest score, and as [ats_score] that score:
    every earlier CV scores strictly less and no later one more.  With no
    CV both are [None]; if every CV scores at most [-1.0] (possible only
    with a negative [years_experience] in a stored analysis) no CV is
    chosen and [ats_score] is [-1.0]. *)
Theorem analyze_best_match_first_max (ratio : string -> string -> Q)
    (ex : string -> list string) (exr : Offer -> Requirements)
    (o : Offer) (cvsk : option (list string)) (cv_data : list CV) :
  let a := analyze_single_offer ratio ex exr o cvsk cv_data in
  let s c := score_offer c o (exr o) (match cvsk with Some l => l | None => [] end) in
  (cv_data = [] -> ao_ats_score a = None /\ ao_best_match_cv a = None)
  /\ (cv_data <> [] ->
      (Forall (fun c => s c <= -1) cv_data /\ ao_best_match_cv a = None
       /\ exists q, ao_ats_score a = Some q /\ q == -1)
      \/ (exists pre cv post, cv_data = app pre (cv :: post) /\ -1 < s cv
          /\ Forall (fun c => s c < s cv) pre /\ Forall (fun c => s c <= s cv) post
          /\ ao_best_match_cv a = Some (cv_name cv) /\ ao_ats_score a = Some (s cv))).
Proof.
  cbv zeta. rewrite analyze_ats, analyze_best.
  set (fb := match cvsk with Some l => l | None => [] end).
  split.
  - intros ->. split; reflexivity.
  - intro Hne. unfold ats_of.
    destruct cv_data as [|c0 rest] eqn:Hcv; [congruence|]. rewrite <- Hcv.
    destruct (pick_best_first_max cv_data o (exr o) fb (-1) None)
      as [[Hall Hp]|[pre [cv [post [E [Hb [Hpre [Hpost Hp]]]]]]]];
      rewrite Hp; cbn [fst snd option_map].
    + left. split; [exact Hall|split; [reflexivity|]].
      exists (round4 (-1)). split; [reflexivity|]. vm_compute. reflexivity.
    + right. exists pre, cv, post.
      split; [exact E|]. split; [exact Hb|]. split; [exact Hpre|]. split; [exact Hpost|].
      split; [reflexivity|]. unfold score_offer at 1. now rewrite round4_idem.
Qed.

(** ** Skills of a CV *)

Lemma ascii_lower_idem c : ascii_lower (ascii_lower c) = ascii_lower c.
Proof. destruct c as [[] [] [] [] [] [] [] []]; reflexivity. Qed.

Lemma str_lower_idem s : str_lower (str_lower s) = str_lower s.
Proof. induction s as [|c s IH]; cbn; [reflexivity|now rewrite ascii_lower_idem, IH]. Qed.

Lemma identify_fold_none xs : fold_left identify_step xs None = None.
Proof. induction xs as [|x xs IH]; [reflexivity|exact IH]. Qed.












Lemma identify_step_app f g x :
  identify_step (Some f) x = Some g -> exists ys, g = app f ys.
Proof.
  destruct x as [w c]. unfold identify_step. intro H.
  destruct (_ || _ || _ || _ || _)%bool;
    [|injection H as <-; exists []; now rewrite app_nil_r].
  destruct (negb _); [|injection H as <-; exists []; now rewrite app_nil_r].
  destruct (Nat.leb (String.length w) 10);
    [|injection H as <-; exists []; now rewrite app_nil_r].
  destruct (str_isupper w); [injection H as <-; eexists; reflexivity|].
  destruct w as [|ch w']; [discriminate|].
  destruct (is_upper ch); injection H as <-; [eexists; reflexivity|].
  exists []; now rewrite app_nil_r.
Qed.

Lemma identify_fold_app xs f f' :
  fold_left identify_step xs (Some f) = Some f' -> exists ys, f' = app f ys.
Proof.
  revert f. induction xs as [|x xs IH]; intros f H.
  - cbn in H. injection H as <-. exists []. now rewrite app_nil_r.
  - cbn [fold_left] in H. destruct (identify_step (Some f) x) as [g|] eqn:Es.
    + destruct (identify_step_app f g x Es) as [ys1 ->].
      destruct (IH _ H) as [ys2 ->]. exists (app ys1 ys2). now rewrite app_assoc.
    + rewrite identify_fold_none in H. discriminate.
Qed.

(** [identify_skills] searches each tech skill as a substring of the
    words ("Recherche exacte ou partielle"): every skill of [tech_skills]
    contained in some word of [word_counts] is in the result, unless the
    list was cut at 25.  So a one-letter skill such as "r" is reported
    for any text with a word containing the letter r, and "go" for a
    word such as "google" or "algorithme". *)
Theorem identify_skills_substring (tech_order : list string)
    (word_counts : list (string * nat))
    (Hperm : Permutation tech_order tech_skills)
    (l : list string) (Hl : identify_skills_of tech_order word_counts = Some l)
    (Hlen : (List.length l < 25)%nat)
    (s : string) (Hs : In s tech_skills)
    (Hw : existsb (fun word => str_contains s word) (map fst word_counts) = true) :
  In s l.
Proof.
  unfold identify_skills_of in Hl. cbv zeta in Hl.
  set (found := filter _ tech_order) in Hl.
  assert (Hf : In s found).
  { apply filter_In. split; [exact (Permutation_in _ (Permutation_sym Hperm) Hs)|].
    rewrite Hw. apply orb_true_r. }
  destruct (fold_left identify_step (most_common 50 word_counts) (Some found))
    as [f'|] eqn:Ef; [|discriminate].
  assert (El : l = match f' with [] => default_skills | _ => firstn 25 f' end)
    by congruence.
  destruct (identify_fold_app _ _ _ Ef) as [ys ->].
  assert (Hin : In s (app found ys)) by (apply in_or_app; now left).
  destruct (app found ys) as [|x xs] eqn:Eapp; [destruct Hin|].
  cbv beta iota in El. subst l.
  rewrite length_firstn in Hlen.
  rewrite firstn_all2; [exact Hin|lia].
Qed.

Lemma identify_skills_substring_witness :
  exists l, identify_skills_of tech_skills [("powerbi", 1%nat); ("python", 3%nat)] = Some l
    /\ (List.length l < 25)%nat /\ In "r" l.
Proof.
  eexists. split; [vm_compute; reflexivity|]. split; [vm_compute; lia|].
  apply (identify_skills_substring tech_skills [("powerbi", 1%nat); ("python", 3%nat)]
           (Permutation_refl _)).
  - vm_compute. reflexivity.
  - vm_compute. lia.
  - cbn. tauto.
  - vm_compute. reflexivity.
Defined.

(** ** Title and location filter of fetched offers *)

Lemma filter_idem {A} (f : A -> bool) (l : list A) : filter f (filter f l) = filter f l.
Proof.
  induction l as [|x l IH]; [reflexivity|]. cbn.
  destruct (f x) eqn:E; cbn; [rewrite E|]; now rewrite IH.
Qed.

Lemma map_str_lower_idem l : map str_lower (map str_lower l) = map str_lower l.
Proof. rewrite map_map. apply map_ext. apply str_lower_idem. Qed.

(** [filter_offers_by_title_and_location] keeps the offers whose title
    contains one of [titles] and whose location or description contains
    [location_keyword], ignoring case.  Filtering its result again with
    the same arguments changes nothing, lower-casing the titles and the
    keyword beforehand changes nothing, an empty [titles] list keeps no
    offer, and an offer with an empty title is never kept, even when
    [titles] holds the empty string (which otherwise matches every
    title). *)
Theorem filter_offers_title_location (offers : list Offer) (titles : list string)
    (location_keyword : string) :
  filter_offers_by_title_and_location
    (filter_offers_by_title_and_location offers titles location_keyword)
    titles location_keyword
  = filter_offers_by_title_and_location offers titles location_keyword
  /\ filter_offers_by_title_and_location offers (map str_lower titles)
       (str_lower location_keyword)
     = filter_offers_by_title_and_location offers titles location_keyword
  /\ filter_offers_by_title_and_location offers [] location_keyword = []
  /\ (forall o, In o (filter_offers_by_title_and_location offers titles location_keyword) ->
        In o offers /\ of_title o <> "").
Proof.
  split; [|split; [|split]].
  - unfold filter_offers_by_title_and_location. apply filter_idem.
  - unfold filter_offers_by_title_and_location. rewrite map_str_lower_idem.
    assert (E : (if String.eqb (str_lower location_keyword) "" then ""
                 else str_lower (str_lower location_keyword))
                = (if String.eqb location_keyword "" then "" else str_lower location_keyword)).
    { destruct location_keyword as [|c l]; [reflexivity|].
      change (str_lower (String c l)) with (String (ascii_lower c) (str_lower l)).
      cbn [String.eqb]. exact (str_lower_idem (String c l)). }
    rewrite E. reflexivity.
  - unfold filter_offers_by_title_and_location. cbn [map].
    induction offers as [|o rest IH]; [reflexivity|]. cbn [filter].
    unfold match_title at 1. destruct (String.eqb (of_title o) ""); cbn; exact IH.
  - intros o H. unfold filter_offers_by_title_and_location in H.
    apply filter_In in H as [Ho Hm]. split; [exact Ho|].
    intro E. rewrite E in Hm. discriminate.
Qed.

Lemma existsb_two_titles t :
  existsb (fun key => str_contains key t) (map str_lower ["data analyst"; "data scientist"]) = true ->
  (str_contains "data analyst" t || str_contains "data scientist" t)%bool = true.
Proof. cbn. now rewrite orb_false_r. Qed.

(** The offers that [run_once] and the scheduler fetch from Adzuna are
    filtered with the titles "data analyst" and "data scientist".  For
    every offer kept by that filter, [_analyze_single_offer] has a
    non-empty [required_skills] list: the offer's own skills, the skills
    found in its text, or, when both are empty, the four skills inferred
    for data roles; so its [match_score] is never 0 merely for lack of
    required skills. *)
Theorem adzuna_offers_have_required_skills (ex : string -> list string)
    (offers : list Offer) (location_keyword : string) (o : Offer) :
  In o (filter_offers_by_title_and_location offers ["data analyst"; "data scientist"]
          location_keyword) ->
  required_skills_of ex o <> []
  /\ ((match of_skills o with Some l => l | None => [] end) = [] ->
      ex (of_title o ++ " " ++ of_description o) = [] ->
      required_skills_of ex o = ["sql"; "python"; "data analysis"; "data visualization"]).
Proof.
  intro H. unfold filter_offers_by_title_and_location in H.
  apply filter_In in H as [_ Hm]. apply andb_true_iff in Hm as [Ht _].
  unfold match_title in Ht. destruct (String.eqb (of_title o) "") ; [discriminate|].
  apply existsb_two_titles in Ht.
  unfold required_skills_of. cbv zeta.
  split.
  - destruct (match of_skills o with Some l => l | None => [] end) as [|g gs];
      [|discriminate].
    destruct (ex (of_title o ++ " " ++ of_description o)) as [|e es]; [|discriminate].
    rewrite Ht. discriminate.
  - intros Hg Hex. rewrite Hg, Hex, Ht. reflexivity.
Qed.

Lemma adzuna_offers_have_required_skills_witness :
  In (mkOffer "Data Analyst H/F" "Acme" "" "" "Paris" None)
     (filter_offers_by_title_and_location [mkOffer "Data Analyst H/F" "Acme" "" "" "Paris" None]
        ["data analyst"; "data scientist"] "paris")
  /\ required_skills_of (fun _ => []) (mkOffer "Data Analyst H/F" "Acme" "" "" "Paris" None) <> []
  /\ required_skills_of (fun _ => []) (mkOffer "Data Analyst H/F" "Acme" "" "" "Paris" None)
     = ["sql"; "python"; "data analysis"; "data visualization"].
Proof.
  assert (Hin : In (mkOffer "Data Analyst H/F" "Acme" "" "" "Paris" None)
                  (filter_offers_by_title_and_location
                     [mkOffer "Data Analyst H/F" "Acme" "" "" "Paris" None]
                     ["data analyst"; "data scientist"] "paris"))
    by (vm_compute; left; reflexivity).
  destruct (adzuna_offers_have_required_skills (fun _ => [])
              [mkOffer "Data Analyst H/F" "Acme" "" "" "Paris" None] "paris"
              (mkOffer "Data Analyst H/F" "Acme" "" "" "Paris" None) Hin) as [H1 H2].
  split; [exact Hin|split; [exact H1|apply H2; reflexivity]].
Defined.

(** ** Candidate skills after the CV analysis *)

Section AllSkills.

Variable extract_pdf_text : string -> string.
Variable identify_skills : string -> list string.
Variable analyze_experiences : string -> list (string * string).
Variable extract_years_experience : string -> option Q.
Variable extract_education_level : string -> string.
Variable extract_soft_skills extract_certifications : string -> list string.

Lemma already_analyzed_skills cv :
  already_analyzed cv = false -> analysis_skills cv = [].
Proof.
  unfold already_analyzed, analysis_skills.
  destruct (cv_analysis cv) as [a|]; [|reflexivity].
  destruct (an_skills a) as [[|x l]|]; [reflexivity|discriminate|reflexivity].
Qed.

Lemma already_analyzed_true cv :
  already_analyzed cv = true -> analysis_skills cv <> [].
Proof.
  unfold already_analyzed, analysis_skills.
  destruct (cv_analysis cv) as [a|]; [|discriminate].
  destruct (an_skills a) as [[|x l]|]; discriminate.
Qed.

Lemma analysis_skills_analyze_cv cv s :
  In s (analysis_skills (analyze_cv extract_pdf_text identify_skills analyze_experiences
                           extract_years_experience extract_education_level
                           extract_soft_skills extract_certifications cv))
  <-> In s (analysis_skills cv)
      \/ (analysis_skills cv = [] /\ exists p, cv_path cv = Some p /\ p <> ""
          /\ extract_pdf_text p <> "" /\ In s (identify_skills (extract_pdf_text p))).
Proof.
  unfold analyze_cv. destruct (already_analyzed cv) eqn:Ea.
  - pose proof (already_analyzed_true cv Ea) as Hne. split; [now left|].
    intros [H|[H _]]; [exact H|contradiction].
  - pose proof (already_analyzed_skills cv Ea) as He. rewrite He.
    destruct (cv_path cv) as [p|] eqn:Ep.
    + destruct (String.eqb p "") eqn:Ep0.
      * apply String.eqb_eq in Ep0. rewrite He. split; [intros []|].
        intros [[]|[_ [q [Eq [Hq _]]]]]. injection Eq as <-. contradiction.
      * apply String.eqb_neq in Ep0.
        destruct (String.eqb (extract_pdf_text p) "") eqn:Et.
        -- apply String.eqb_eq in Et. rewrite He. split; [intros []|].
           intros [[]|[_ [q [Eq [_ [Ht _]]]]]]. injection Eq as <-. contradiction.
        -- apply String.eqb_neq in Et. cbn [analysis_skills cv_analysis an_skills].
           split.
           ++ intro H. right. split; [reflexivity|]. exists p. auto.
           ++ intros [[]|[_ [q [Eq [_ [_ H]]]]]]. injection Eq as <-. exact H.
    + rewrite He. split; [intros []|]. intros [[]|[_ [q [Eq _]]]]. discriminate.
Qed.

End AllSkills.

(** After [analyze_cvs], [get_all_skills] lists each skill once, and a
    skill is listed exactly when some record already had it in its
    [analysis.skills], or the record had no skill, a non-empty [path] and
    a PDF with text, and [identify_skills] found the skill in that text.
    Records without a path or without readable text contribute nothing. *)
Theorem get_all_skills_after_analyze
    (extract_pdf_text : string -> string) (identify_skills : string -> list string)
    (analyze_experiences : string -> list (string * string))
    (extract_years_experience : string -> option Q)
    (extract_education_level : string -> string)
    (extract_soft_skills extract_certifications : string -> list string)
    (cvs : list CV) :
  let all := get_all_skills (analyze_cvs extract_pdf_text identify_skills analyze_experiences
                               extract_years_experience extract_education_level
                               extract_soft_skills extract_certifications cvs) in
  NoDup all
  /\ forall s, In s all <->
       exists cv, In cv cvs
         /\ (In s (analysis_skills cv)
             \/ (analysis_skills cv = [] /\ exists p, cv_path cv = Some p /\ p <> ""
                 /\ extract_pdf_text p <> "" /\ In s (identify_skills (extract_pdf_text p)))).
Proof.
  cbv zeta. unfold get_all_skills. split; [apply NoDup_nodup|].
  intro s. rewrite nodup_In, in_concat. split.
  - intros [l [Hl Hs]]. unfold analyze_cvs in Hl. rewrite map_map in Hl.
    apply in_map_iff in Hl as [cv [<- Hcv]]. exists cv. split; [exact Hcv|].
    exact (proj1 (analysis_skills_analyze_cv extract_pdf_text identify_skills analyze_experiences
               extract_years_experience extract_education_level extract_soft_skills
               extract_certifications cv s) Hs).
  - intros [cv [Hcv H]]. eexists. split.
    + unfold analyze_cvs. rewrite map_map. apply in_map_iff. exists cv. split; [reflexivity|exact Hcv].
    + exact (proj2 (analysis_skills_analyze_cv extract_pdf_text identify_skills analyze_experiences
               extract_years_experience extract_education_level extract_soft_skills
               extract_certifications cv s) H).
Qed.

(* ------------------------------------------------------------------ *)
(** ** Motivation letters in the collaborators' e-mails *)

Lemma generate_loop_inv av gpt now name ms L p :
  In p (generate_loop av gpt now name ms L) ->
  In p L \/ exists o, In o ms /\ p = (offer_key o, letter_for av gpt now name o).
Proof.
  revert L. induction ms as [|o ms IH]; intros L H; cbn [generate_loop] in H.
  - now left.
  - destruct (letter_key_in (offer_key o) L).
    + destruct (IH L H) as [H'|[o' [Ho' ->]]]; [now left|right; exists o'; split; [now right|reflexivity]].
    + destruct (IH _ H) as [H'|[o' [Ho' ->]]].
      * apply in_app_or in H' as [H'|[<-|[]]]; [now left|right; exists o; split; [now left|reflexivity]].
      * right; exists o'; split; [now right|reflexivity].
Qed.

Lemma generate_letters_inv av gpt now cvs min analyzed L p :
  In p (generate_letters av gpt now cvs min analyzed L) ->
  In p L \/ exists o, In o analyzed /\ min <= ao_match_score o
    /\ p = (offer_key o, letter_for av gpt now (first_candidate_name cvs) o).
Proof.
  unfold generate_letters. destruct analyzed as [|a0 an]; [now left|].
  destruct (filter _ (a0 :: an)) as [|f fs] eqn:Ef; [now left|].
  intro H. destruct (generate_loop_inv _ _ _ _ _ _ _ H) as [H'|[o [Ho ->]]]; [now left|].
  right. exists o. rewrite <- Ef in Ho. apply filter_In in Ho as [Ho Hs].
  split; [exact Ho|split; [now apply Qle_bool_iff|reflexivity]].
Qed.

Lemma letter_lookup_some L k l :
  letter_lookup L k = Some l -> exists p, In p L /\ fst p = k /\ snd p = l.
Proof.
  unfold letter_lookup. destruct (find _ L) as [p|] eqn:E; [|discriminate].
  intro H. injection H as <-. apply find_some in E as [Hp Hk].
  exists p. split; [exact Hp|split; [now apply String.eqb_eq|reflexivity]].
Qed.

Lemma last_char_app (s t : string) m' d :
  list_ascii_of_string t = app m' [d] ->
  list_ascii_of_string (s ++ t) = app (app (list_ascii_of_string s) m') [d].
Proof. intro H. rewrite list_ascii_of_string_app, H. now rewrite app_assoc. Qed.

Ltac last_char_solve :=
  first [ exact (eq_refl (app [] ["%"%char]))
        | eapply last_char_app; last_char_solve ].

Lemma generate_template_chars name o ms now :
  exists m m', list_ascii_of_string (generate_template name o ms now) = "M"%char :: m
    /\ list_ascii_of_string (generate_template name o ms now) = app m' ["%"%char].
Proof.
  eexists. eexists. split.
  - unfold generate_template. reflexivity.
  - unfold generate_template. cbv zeta. last_char_solve.
Qed.

Lemma body_contains_letter o desc l m m' :
  list_ascii_of_string l = "M"%char :: m -> list_ascii_of_string l = app m' ["%"%char] ->
  str_contains l (build_email_body o desc (Some l)) = true.
Proof.
  intros H1 H2. unfold build_email_body. cbv zeta.
  apply (str_strip_contains _ _ "M"%char m m' "%"%char H1 H2 eq_refl eq_refl).
  assert (Hl : String.eqb l "" = false) by (destruct l; [discriminate H1|reflexivity]).
  rewrite Hl. contains_solve.
Qed.

Lemma generate_template_name name o ms now :
  str_contains name (generate_template name o ms now) = true.
Proof. unfold generate_template. cbv zeta. contains_solve. Qed.

Lemma notify_collaborators_outbox sender_ok env desc prefs analyzed letters cvs rs :
  exists new,
    outbox (rs_agent (notify_collaborators sender_ok env desc prefs analyzed letters cvs rs))
      = app (outbox (rs_agent rs)) new
    /\ forall e, In e new -> exists r o, In o analyzed
         /\ e = (offer_key o, (r, build_subject o,
                               build_email_body o (desc o) (letters (offer_key o)))).
Proof.
  revert rs. induction cvs as [|cv rest IH]; intro rs; cbn [notify_collaborators].
  - exists []. split; [now rewrite app_nil_r|intros e []].
  - destruct (String.eqb (cv_email cv) "") eqn:He; [apply IH|].
    pose proof (send_notifications_trace_gen sender_ok env desc
      (apply_pref prefs (rs_min_match_score rs) (cv_email cv) (cv_name cv)) analyzed
      (rs_agent rs) (Some (cv_email cv)) true letters) as Ht. cbv zeta in Ht.
    destruct (send_notifications _ _ _ _ _ _ _ _ _) as [sent st].
    destruct Ht as [new1 [A1 [_ [_ [C1 _]]]]]. cbn [snd] in A1.
    match goal with |- context [notify_collaborators _ _ _ _ _ _ rest ?r1] =>
      destruct (IH r1) as [new2 [A2 C2]] end.
    cbn [rs_agent] in A2.
    exists (app new1 new2). split; [rewrite A2, A1; now rewrite app_assoc|].
    intros e Hin. apply in_app_or in Hin as [Hin|Hin].
    + destruct (C1 e Hin) as [r [o [_ [_ [Ho [_ [_ ->]]]]]]]. now exists r, o.
    + exact (C2 e Hin).
Qed.

(** [generate_letters] as [run_once] and the scheduler use it (threshold
    0.7, then [get_generated_letters] passed to every collaborator's
    [send_notifications]): each e-mail added to the outbox is the body of
    an analysed offer with the letter stored under its key; that letter
    was written for an analysed offer of score >= 0.7 with the same key,
    in the name of the FIRST CV record, whoever the recipient is; with
    the template (no usable GPT key) the body contains that name. *)
Theorem collaborator_letters_first_cv (av : bool) gpt now sender_ok env desc prefs analyzed
    (cv0 : CV) (rest : list CV) (rs : RunState) :
  let letters := generate_letters av gpt now (cv0 :: rest) (7 # 10) analyzed [] in
  let res := notify_collaborators sender_ok env desc prefs analyzed (letter_lookup letters)
               (cv0 :: rest) rs in
  exists new,
    outbox (rs_agent res) = app (outbox (rs_agent rs)) new
    /\ forall k r subj body, In (k, (r, subj, body)) new ->
       exists o, In o analyzed /\ k = offer_key o
         /\ body = build_email_body o (desc o) (letter_lookup letters k)
         /\ forall l, letter_lookup letters k = Some l ->
              exists o', In o' analyzed /\ 7 # 10 <= ao_match_score o' /\ offer_key o' = k
                /\ l = letter_for av gpt now (cv_name cv0) o'
                /\ (av = false -> str_contains (cv_name cv0) body = true).
Proof.
  cbv zeta.
  destruct (notify_collaborators_outbox sender_ok env desc prefs analyzed
    (letter_lookup (generate_letters av gpt now (cv0 :: rest) (7 # 10) analyzed []))
    (cv0 :: rest) rs) as [new [A C]].
  exists new. split; [exact A|].
  intros k r subj body Hin. destruct (C _ Hin) as [r' [o [Ho He]]].
  injection He as Ek _ _ Eb. subst k.
  exists o. split; [exact Ho|split; [reflexivity|split; [exact Eb|]]].
  intros l Hl. destruct (letter_lookup_some _ _ _ Hl) as [p [Hp [Hk Hv]]].
  destruct (generate_letters_inv _ _ _ _ _ _ _ _ Hp) as [[]|[o' [Ho' [Hs ->]]]].
  cbn [fst snd] in Hk, Hv. subst l.
  exists o'. split; [exact Ho'|split; [exact Hs|split; [exact Hk|split; [reflexivity|]]]].
  intro Hav. subst av. rewrite Eb, Hl. cbn [first_candidate_name].
  unfold letter_for.
  destruct (generate_template_chars (cv_name cv0) o' (ao_matched_skills o') now)
    as [m [m' [H1 H2]]].
  apply (str_contains_trans _ _ _ (generate_template_name (cv_name cv0) o' (ao_matched_skills o') now)).
  exact (body_contains_letter _ _ _ m m' H1 H2).
Qed.

Lemma letter_key_in_iff k L : letter_key_in k L = true <-> In k (map fst L).
Proof.
  unfold letter_key_in. rewrite existsb_exists, in_map_iff. split.
  - intros [p [Hp Hk]]. apply String.eqb_eq in Hk. now exists p.
  - intros [p [Hk Hp]]. exists p. split; [exact Hp|now apply String.eqb_eq].
Qed.

Lemma generate_loop_keys av gpt now name ms L :
  exists new, generate_loop av gpt now name ms L = app L new
    /\ NoDup (map fst new)
    /\ (forall k, In k (map fst new) -> ~ In k (map fst L))
    /\ (forall p, In p new -> exists o, In o ms /\ p = (offer_key o, letter_for av gpt now name o))
    /\ (forall o, In o ms -> In (offer_key o) (map fst (generate_loop av gpt now name ms L))).
Proof.
  revert L. induction ms as [|o ms IH]; intro L; cbn [generate_loop].
  - exists []. rewrite app_nil_r. repeat split; [constructor|intros k []|intros p []|intros o []].
  - destruct (letter_key_in (offer_key o) L) eqn:Ek.
    + destruct (IH L) as [new [E [N [F [G K]]]]].
      exists new. split; [exact E|split; [exact N|split; [exact F|split]]].
      * intros p Hp. destruct (G p Hp) as [o' [Ho' ->]]. exists o'. split; [now right|reflexivity].
      * intros o' [<-|Ho']; [|exact (K o' Ho')].
        rewrite E, map_app. apply in_or_app. left. now apply letter_key_in_iff.
    + set (L1 := app L [(offer_key o, letter_for av gpt now name o)]).
      destruct (IH L1) as [new [E [N [F [G K]]]]].
      exists ((offer_key o, letter_for av gpt now name o) :: new).
      split; [rewrite E; unfold L1; now rewrite <- app_assoc|].
      assert (Hno : ~ In (offer_key o) (map fst L)).
      { intro H. apply letter_key_in_iff in H. congruence. }
      split; [|split; [|split]].
      * cbn [map fst]. constructor; [|exact N].
        intro H. apply (F _ H). unfold L1. rewrite map_app. apply in_or_app. now right; left.
      * intros k [<-|Hk]; [exact Hno|].
        intro H. apply (F _ Hk). unfold L1. rewrite map_app. now apply in_or_app; left.
      * intros p [<-|Hp]; [exists o; split; [now left|reflexivity]|].
        destruct (G p Hp) as [o' [Ho' ->]]. exists o'. split; [now right|reflexivity].
      * intros o' [<-|Ho']; [|exact (K o' Ho')].
        rewrite E, map_app. apply in_or_app. left. unfold L1. rewrite map_app.
        apply in_or_app. now right; left.
Qed.

(** [generate_letters] never replaces a letter: the letters it adds come
    after the existing ones, under pairwise distinct keys that were not
    there, each written for an analysed offer reaching the threshold in
    the name of the first CV record; afterwards every such offer's key
    has a letter. *)
Theorem generate_letters_keys av gpt now cv_data min analyzed L0 :
  let L := generate_letters av gpt now cv_data min analyzed L0 in
  exists new, L = app L0 new
    /\ NoDup (map fst new)
    /\ (forall k, In k (map fst new) -> ~ In k (map fst L0))
    /\ (forall p, In p new -> exists o, In o analyzed /\ min <= ao_match_score o
          /\ p = (offer_key o, letter_for av gpt now (first_candidate_name cv_data) o))
    /\ (forall o, In o analyzed -> min <= ao_match_score o -> In (offer_key o) (map fst L)).
Proof.
  cbv zeta. unfold generate_letters.
  destruct analyzed as [|a0 an].
  - exists []. rewrite app_nil_r. repeat split; [constructor|intros k []|intros p []|intros o []].
  - destruct (filter _ (a0 :: an)) as [|f fs] eqn:Ef.
    + exists []. rewrite app_nil_r. repeat split; [constructor|intros k []|intros p []|].
      intros o Ho Hs. exfalso.
      assert (H : In o (filter (fun o => Qle_bool min (ao_match_score o)) (a0 :: an)))
        by (apply filter_In; split; [exact Ho|now apply Qle_bool_iff]).
      rewrite Ef in H. destruct H.
    + destruct (generate_loop_keys av gpt now (first_candidate_name cv_data) (f :: fs) L0)
        as [new [E [N [F [G K]]]]].
      exists new. split; [exact E|split; [exact N|split; [exact F|split]]].
      * intros p Hp. destruct (G p Hp) as [o [Ho ->]]. rewrite <- Ef in Ho.
        apply filter_In in Ho as [Ho Hs]. exists o.
        split; [exact Ho|split; [now apply Qle_bool_iff|reflexivity]].
      * intros o Ho Hs. apply K. rewrite <- Ef. apply filter_In.
        split; [exact Ho|now apply Qle_bool_iff].
Qed.
